(** * MindEase (src/App.tsx): session store, crisis check, suggestion
      directive, send controller, Pomodoro timer and hydration.

    The development is a shallow embedding of the state-handling code of
    [App.tsx].  React state is passed explicitly: every handler is a function
    from the values its closure captured to the values it hands to the
    setters.

    Strings are [String.string].  A character stands for one code unit; the
    embedding of [toLowerCase], [trim] and of the regular expression is exact
    on texts in the ASCII range and treats any other code unit as an opaque
    character that is neither a letter, nor white space, nor a line
    terminator. *)

From Stdlib Require Import String Ascii List ZArith Bool Lia.
From Stdlib Require Import Numbers.DecimalString.
Import ListNotations.
Open Scope string_scope.

(** ** ECMAScript string operations used by the application *)

Module JS.

Definition isUpper (c : ascii) : bool :=
  (65 <=? nat_of_ascii c)%nat && (nat_of_ascii c <=? 90)%nat.

Definition lowerChar (c : ascii) : ascii :=
  if isUpper c then ascii_of_nat (nat_of_ascii c + 32) else c.

(** [s.toLowerCase()] *)
Fixpoint toLowerCase (s : string) : string :=
  match s with
  | "" => ""
  | String c s' => String (lowerChar c) (toLowerCase s')
  end.

(** [s.startsWith(p)] *)
Fixpoint startsWith (s p : string) : bool :=
  match p, s with
  | "", _ => true
  | String _ _, "" => false
  | String a p', String b s' => Ascii.eqb a b && startsWith s' p'
  end.

(** [s.includes(k)] *)
Fixpoint includes (s k : string) : bool :=
  startsWith s k ||
  match s with
  | "" => false
  | String _ s' => includes s' k
  end.

(** [s.slice(0, n)] *)
Fixpoint slice0 (n : nat) (s : string) : string :=
  match n, s with
  | S n', String c s' => String c (slice0 n' s')
  | _, _ => ""
  end.

(** White space removed by [trim]: TAB, LF, VT, FF, CR and SPACE. *)
Definition isWhiteSpace (c : ascii) : bool :=
  let n := nat_of_ascii c in
  ((9 <=? n)%nat && (n <=? 13)%nat) || (n =? 32)%nat.

Fixpoint trimStart (s : string) : string :=
  match s with
  | "" => ""
  | String c s' => if isWhiteSpace c then trimStart s' else s
  end.

Fixpoint trimEnd (s : string) : string :=
  match s with
  | "" => ""
  | String c s' =>
      match trimEnd s' with
      | "" => if isWhiteSpace c then "" else String c ""
      | r => String c r
      end
  end.

(** [s.trim()] *)
Definition trim (s : string) : string := trimEnd (trimStart s).

(** [s.split(sep)] for a one-character separator. *)
Fixpoint split (sep : ascii) (s : string) : list string :=
  match s with
  | "" => [""]
  | String c s' =>
      if Ascii.eqb c sep then "" :: split sep s'
      else match split sep s' with
           | h :: t => String c h :: t
           | [] => [String c ""]
           end
  end.

(** Line terminators, which [.] does not match: LF and CR. *)
Definition isLineTerminator (c : ascii) : bool :=
  let n := nat_of_ascii c in (n =? 10)%nat || (n =? 13)%nat.

(** [n.toString()] for an integer [n]. *)
Definition toString (n : Z) : string :=
  NilEmpty.string_of_int (Z.to_int n).

End JS.

(** ** Types (App.tsx, 37-53) *)

Inductive Role := user | model.

Inductive MessageType := chat | study_plan | crisis.

Record Attachment := mkAttachment {
  data : string;
  mimeType : string;
  name : string
}.

Record Message := mkMessage {
  role : Role;
  text : string;
  type : option MessageType;
  attachment : option Attachment
}.

Record Chat := mkChat {
  id : string;
  title : string;
  messages : list Message;
  createdAt : Z
}.

(** ** Crisis check (App.tsx, 91 and 223) *)

Definition CRISIS_KEYWORDS : list string :=
  ["suicide"; "kill myself"; "self-harm"; "end it all"; "hurt myself";
   "giving up on life"].

(** [CRISIS_KEYWORDS.some(k => messageText.toLowerCase().includes(k))] *)
Definition detect (messageText : string) : bool :=
  existsb (fun k => JS.includes (JS.toLowerCase messageText) k) CRISIS_KEYWORDS.

(** ** Outcome of a handler

    A handler either returns or throws.  The state updates it queued before
    throwing are still applied, so both cases carry the resulting state. *)

Inductive Error := TypeError | SyntaxError.

Inductive Outcome (A : Type) :=
| Returned (a : A)
| Thrown (e : Error) (a : A).

Arguments Returned {A} a.
Arguments Thrown {A} e a.

Definition stateOf {A : Type} (o : Outcome A) : A :=
  match o with Returned a => a | Thrown _ a => a end.

(** ** Session store (App.tsx, 96-107 and 145-180) *)

Record Store := mkStore {
  chats : list Chat;
  currentChatId : string
}.

Definition welcomeFirstRun : string :=
  "Hi there. I'm MindEase. I know things can feel overwhelming right now, but I'm here to help. 

Before we start, on a scale from 1–5, how overwhelmed are you right now?".

Definition welcomeNewChat : string :=
  "Hi there. I'm MindEase. Before we dive in, on a scale from 1–5, how overwhelmed are you right now?".

Definition modelMessage (t : string) : Message :=
  {| role := model; text := t; type := None; attachment := None |}.

(** The chat built on first run, when nothing is stored; [now] is the
    value of [Date.now()]. *)
Definition initialChat (now : Z) : Chat :=
  {| id := "1"; title := "New Chat";
     messages := [modelMessage welcomeFirstRun]; createdAt := now |}.

(** State after the first render on first run: [chats = [initialChat]] and
    [currentChatId = chats[0].id]. *)
Definition initialStore (now : Z) : Store :=
  {| chats := [initialChat now]; currentChatId := id (initialChat now) |}.

(** [createNewChat]; [now] is the value of [Date.now()]. *)
Definition createNewChat (now : Z) (st : Store) : Store :=
  let newChat :=
    {| id := JS.toString now; title := "New Chat";
       messages := [modelMessage welcomeNewChat]; createdAt := now |} in
  {| chats := newChat :: chats st; currentChatId := id newChat |}.

(** [deleteChat]: [setChats(newChats)] is queued before [newChats[0].id] is
    read, which throws when [newChats] is empty. *)
Definition deleteChat (i : string) (st : Store) : Outcome Store :=
  if (List.length (chats st) =? 1)%nat then Returned st
  else
    let newChats := filter (fun c => negb (id c =? i)) (chats st) in
    if currentChatId st =? i then
      match newChats with
      | c :: _ => Returned {| chats := newChats; currentChatId := id c |}
      | [] => Thrown TypeError {| chats := newChats; currentChatId := currentChatId st |}
      end
    else Returned {| chats := newChats; currentChatId := currentChatId st |}.

Definition isUser (m : Message) : bool :=
  match role m with user => true | model => false end.

(** The title computed inside [updateCurrentChatMessages] for chat [c]. *)
Definition newTitle (c : Chat) (newMessages : list Message) : string :=
  if (title c =? "New Chat") && existsb isUser newMessages then
    let firstUserMsg :=
      match find isUser newMessages with
      | Some m => text m
      | None => ""
      end in
    JS.slice0 20 firstUserMsg ++
    (if (20 <? String.length firstUserMsg)%nat then "..." else "")
  else title c.

(** [updateCurrentChatMessages]: the argument of [setChats], applied to the
    previous list.  [cid] is the [currentChatId] captured by the closure. *)
Definition updateCurrentChatMessages
  (cid : string) (newMessages : list Message) (prev : list Chat) : list Chat :=
  map (fun c =>
         if id c =? cid then
           {| id := id c; title := newTitle c newMessages;
              messages := newMessages; createdAt := createdAt c |}
         else c) prev.

(** [chats.find(c => c.id === currentChatId) || chats[0]]; [None] when the
    list is empty, where reading [currentChat.messages] throws and nothing
    is rendered. *)
Definition currentChat (st : Store) : option Chat :=
  match find (fun c => id c =? currentChatId st) (chats st) with
  | Some c => Some c
  | None => hd_error (chats st)
  end.

(** The example of the specification: the first-run session receives the
    user message "Plan my essay on memory and identity". *)
Definition essayMessage : Message :=
  {| role := user; text := "Plan my essay on memory and identity";
     type := None; attachment := None |}.

Definition essayMessages : list Message :=
  messages (initialChat 0) ++ [essayMessage].

(** The session once titled, and a later update of it. *)
Definition essayChat : Chat :=
  {| id := "1"; title := "Plan my essay on mem..."; messages := essayMessages;
     createdAt := 0 |}.

Definition laterMessages : list Message :=
  essayMessages ++ [modelMessage "Let's start with an outline."]
  ++ [{| role := user; text := "Thanks, now help me with the introduction";
         type := None; attachment := None |}].

(** Operations on the store as the interface offers them. *)
Inductive StoreOp :=
| OpCreate (now : Z)                  (* "New Session" *)
| OpDelete (i : string)               (* the bin of a session *)
| OpAppend (newMessages : list Message)
| OpSelect (n : nat).                 (* the button of the n-th session *)

Definition storeStep (op : StoreOp) (st : Store) : Outcome Store :=
  match op with
  | OpCreate now => Returned (createNewChat now st)
  | OpDelete i => deleteChat i st
  | OpAppend ms =>
      Returned {| chats := updateCurrentChatMessages (currentChatId st) ms (chats st);
                  currentChatId := currentChatId st |}
  | OpSelect n =>
      match nth_error (chats st) n with
      | Some c => Returned {| chats := chats st; currentChatId := id c |}
      | None => Returned st
      end
  end.

(** A thrown error stops the run. *)
Fixpoint storeRun (ops : list StoreOp) (st : Store) : Outcome Store :=
  match ops with
  | [] => Returned st
  | op :: rest =>
      match storeStep op st with
      | Returned st' => storeRun rest st'
      | Thrown e st' => Thrown e st'
      end
  end.

Definition ids (st : Store) : list string := map id (chats st).

(** Every [OpCreate] of the run draws an id that no stored session has. *)
Fixpoint freshIds (ops : list StoreOp) (st : Store) : Prop :=
  match ops with
  | [] => True
  | op :: rest =>
      match op with
      | OpCreate now => ~ In (JS.toString now) (ids st)
      | _ => True
      end /\
      match storeStep op st with
      | Returned st' => freshIds rest st'
      | Thrown _ _ => True
      end
  end.

(** The invariant of the store: a session exists, ids are distinct and the
    active id is the id of a stored session. *)
Definition storeInv (st : Store) : Prop :=
  chats st <> [] /\ NoDup (ids st) /\ In (currentChatId st) (ids st).

(** Two sessions created at the same value of [Date.now()] share their id;
    deleting the first-run session and then that id empties the store. *)
Definition collidingRun : list StoreOp :=
  [OpCreate 1700000000000; OpCreate 1700000000000; OpDelete "1";
   OpDelete "1700000000000"].

(** ** Suggestion directive (App.tsx, 258-264) *)

(** The rest of [s] after the literal [p], when [s] starts with [p]. *)
Fixpoint dropPrefix (p s : string) : option string :=
  match p, s with
  | "", _ => Some s
  | String _ _, "" => None
  | String a p', String b s' => if Ascii.eqb a b then dropPrefix p' s' else None
  end.

(** [(.*?)\]] from the start of [s]: the lazy quantifier stops at the first
    closing bracket and fails on a line terminator before it.  The result is
    the captured group and the text after the bracket. *)
Fixpoint lazyPayload (s : string) : option (string * string) :=
  match s with
  | "" => None
  | String c s' =>
      if Ascii.eqb c "]" then Some ("", s')
      else if JS.isLineTerminator c then None
      else match lazyPayload s' with
           | Some (p, r) => Some (String c p, r)
           | None => None
           end
  end.

Definition directiveOpen : string := "[SUGGESTIONS: ".

(** A match of [/\[SUGGESTIONS: (.*?)\]/] anchored at the start of [s]. *)
Definition matchAt (s : string) : option (string * string) :=
  match dropPrefix directiveOpen s with
  | Some r => lazyPayload r
  | None => None
  end.

Record Match := mkMatch {
  before : string;     (* the text left of the match *)
  group1 : string;     (* the captured group *)
  after : string       (* the text right of the match *)
}.

(** [aiText.match(/\[SUGGESTIONS: (.*?)\]/)]: the leftmost match. *)
Fixpoint matchSuggestions (s : string) : option Match :=
  match matchAt s with
  | Some (p, r) => Some {| before := ""; group1 := p; after := r |}
  | None =>
      match s with
      | "" => None
      | String c s' =>
          match matchSuggestions s' with
          | Some m => Some {| before := String c (before m);
                              group1 := group1 m; after := after m |}
          | None => None
          end
      end
  end.

(** Lines 259-264: the new value of [aiText] and, when [setSuggestions] is
    called, its argument. *)
Definition parseSuggestions (aiText : string) : string * option (list string) :=
  match matchSuggestions aiText with
  | Some m =>
      (JS.trim (before m ++ after m),
       Some (map JS.trim (JS.split "," (group1 m))))
  | None => (aiText, None)
  end.

(** Every character of [s] satisfies [f]. *)
Fixpoint allChars (f : ascii -> bool) (s : string) : bool :=
  match s with
  | "" => true
  | String c s' => f c && allChars f s'
  end.

Definition notLineTerminator (c : ascii) : bool := negb (JS.isLineTerminator c).

Definition notComma (c : ascii) : bool := negb (Ascii.eqb c ",").

Definition startsWhite (s : string) : bool :=
  match s with
  | "" => false
  | String c _ => JS.isWhiteSpace c
  end.

Fixpoint endsWhite (s : string) : bool :=
  match s with
  | "" => false
  | String c "" => JS.isWhiteSpace c
  | String _ s' => endsWhite s'
  end.

(** The text holds a directive: the opening, a payload free of line
    terminators and a closing bracket. *)
Definition hasDirective (raw : string) : Prop :=
  exists pre payload post,
    raw = pre ++ directiveOpen ++ payload ++ "]" ++ post
    /\ allChars notLineTerminator payload = true.

(** [t] is [s] without the white space around it. *)
Definition isTrimOf (s t : string) : Prop :=
  exists l r,
    s = l ++ t ++ r
    /\ allChars JS.isWhiteSpace l = true /\ allChars JS.isWhiteSpace r = true
    /\ startsWhite t = false /\ endsWhite t = false.

(** The replies used as examples. *)
Definition replyWithChips : string :=
  "Let's break this down. [SUGGESTIONS: Make a plan, Take a break, Talk to someone]".

Definition replyWithEmptyChip : string :=
  "Here are some ideas. [SUGGESTIONS: Make a plan,, Take a break]".

Definition replyPlain : string := "Just a normal reply, no directive here.".

Definition replyUnclosed : string :=
  "One step at a time. [SUGGESTIONS: Make a plan, Take a break".

Definition replyOnlyDirective : string := "[SUGGESTIONS: Take a break]".

(** ** Send controller (App.tsx, 200-321 and the input area, 557-640) *)

Inductive Tool := noTool | timerTool | breathingTool | studyPlanTool.

Inductive RequestKind := ChatTurn | StudyPlanTurn.

(** One element of the [contents] of a request. *)
Record Content := mkContent {
  contentRole : Role;
  contentText : string;
  inlineData : option (string * string)    (* data, mimeType *)
}.

(** An outstanding call of [generateContent] with what the suspended
    handler captured. *)
Record Request := mkRequest {
  kind : RequestKind;
  reqChatId : string;                (* [currentChatId] of the closure *)
  reqMessages : list Message;        (* [updatedMessages] *)
  contents : list Content
}.

(** How a call settles: it rejects, or it resolves with [response.text],
    which may be undefined. *)
Inductive Response :=
| Rejected
| Replied (t : option string).

Record AppState := mkApp {
  store : Store;
  input : string;
  isLoading : bool;
  activeTool : Tool;
  attachedFile : option Attachment;
  suggestions : list string;
  pending : list Request
}.

Definition initialApp (now : Z) : AppState :=
  {| store := initialStore now; input := ""; isLoading := false;
     activeTool := noTool; attachedFile := None; suggestions := [];
     pending := [] |}.

Definition setChats (f : list Chat -> list Chat) (st : AppState) : AppState :=
  {| store := {| chats := f (chats (store st));
                 currentChatId := currentChatId (store st) |};
     input := input st; isLoading := isLoading st; activeTool := activeTool st;
     attachedFile := attachedFile st; suggestions := suggestions st;
     pending := pending st |}.

Definition setInput (s : string) (st : AppState) : AppState :=
  {| store := store st; input := s; isLoading := isLoading st;
     activeTool := activeTool st; attachedFile := attachedFile st;
     suggestions := suggestions st; pending := pending st |}.

Definition setIsLoading (b : bool) (st : AppState) : AppState :=
  {| store := store st; input := input st; isLoading := b;
     activeTool := activeTool st; attachedFile := attachedFile st;
     suggestions := suggestions st; pending := pending st |}.

Definition setActiveTool (t : Tool) (st : AppState) : AppState :=
  {| store := store st; input := input st; isLoading := isLoading st;
     activeTool := t; attachedFile := attachedFile st;
     suggestions := suggestions st; pending := pending st |}.

Definition setAttachedFile (f : option Attachment) (st : AppState) : AppState :=
  {| store := store st; input := input st; isLoading := isLoading st;
     activeTool := activeTool st; attachedFile := f;
     suggestions := suggestions st; pending := pending st |}.

Definition setSuggestions (l : list string) (st : AppState) : AppState :=
  {| store := store st; input := input st; isLoading := isLoading st;
     activeTool := activeTool st; attachedFile := attachedFile st;
     suggestions := l; pending := pending st |}.

Definition setPending (l : list Request) (st : AppState) : AppState :=
  {| store := store st; input := input st; isLoading := isLoading st;
     activeTool := activeTool st; attachedFile := attachedFile st;
     suggestions := suggestions st; pending := l |}.

Definition crisisMsg : Message :=
  {| role := model; type := Some crisis; attachment := None;
     text := "I'm really concerned about what you're saying. Please know that you're not alone and there is support available. 

**Immediate Help:**
- Contact your school counselor immediately.
- International: [Befrienders Worldwide](https://www.befrienders.org/)
- Crisis Text Line: Text HOME to 741741

Please reach out to a trusted adult or professional right now." |}.

Definition chatFallback : string :=
  "I'm here for you, but I'm having a little trouble connecting. Could you try saying that again?".

Definition chatStuck : string :=
  "I'm sorry, I'm feeling a bit stuck. Let's take a deep breath together. How else can I support you?".

Definition planFallback : string :=
  "I couldn't generate a plan right now, but let's try breaking it down together.".

Definition planSnag : string :=
  "I hit a snag. Let's try again in a moment.".

(** [x || d] for an optional string [x]: the empty string is falsy. *)
Definition orElse (x : option string) (d : string) : string :=
  match x with
  | Some s => if s =? "" then d else s
  | None => d
  end.

Definition isStaged (f : option Attachment) : bool :=
  match f with Some _ => true | None => false end.

Definition contentOf (m : Message) : Content :=
  {| contentRole := role m; contentText := text m;
     inlineData := match attachment m with
                   | Some a => Some (data a, mimeType a)
                   | None => None
                   end |}.

(** [handleSendMessage(text)]: [arg] is [Some t] when it is called with a
    string and [None] when it is called without one.  The part after
    [await] is [resolve] below. *)
Definition handleSendMessage (arg : option string) (st : AppState) : AppState :=
  match currentChat (store st) with
  | None => st
  | Some cur =>
      let messageText := match arg with Some t => t | None => input st end in
      if (JS.trim messageText =? "") && negb (isStaged (attachedFile st)) then st
      else
        let cid := currentChatId (store st) in
        let userMessage :=
          {| role := user; text := messageText; type := None;
             attachment := attachedFile st |} in
        let updatedMessages := (messages cur ++ [userMessage])%list in
        let st1 :=
          setIsLoading true
            (setSuggestions []
               (setAttachedFile None
                  (setInput ""
                     (setChats (updateCurrentChatMessages cid updatedMessages) st)))) in
        if detect messageText then
          setIsLoading false
            (setChats (updateCurrentChatMessages cid (updatedMessages ++ [crisisMsg])%list) st1)
        else
          setPending
            (pending st1 ++
             [{| kind := ChatTurn; reqChatId := cid;
                 reqMessages := updatedMessages;
                 contents := map contentOf updatedMessages |}])%list st1
  end.

Definition doubleQuote : string := String (ascii_of_nat 34) EmptyString.

Definition studyPlanPrompt (task : string) : string :=
  "Generate a 3-step study plan for this MYP task: " ++ doubleQuote ++ task ++
  doubleQuote ++ ". 
    Use the checklist format:
    [ ] Step 1: ...
    [ ] Step 2: ...
    [ ] Step 3: ...
    Make it actionable and supportive.".

(** [generateStudyPlan(task, attachment)] up to [await]. *)
Definition generateStudyPlan
  (task : string) (att : option Attachment) (st : AppState) : AppState :=
  match currentChat (store st) with
  | None => st
  | Some cur =>
      let cid := currentChatId (store st) in
      let userMsg :=
        {| role := user; text := "Help me plan for: " ++ task; type := None;
           attachment := att |} in
      let updatedMessages := (messages cur ++ [userMsg])%list in
      let st1 :=
        setChats (updateCurrentChatMessages cid updatedMessages)
          (setActiveTool noTool (setIsLoading true st)) in
      setPending
        (pending st1 ++
         [{| kind := StudyPlanTurn; reqChatId := cid;
             reqMessages := updatedMessages;
             contents :=
               [{| contentRole := user; contentText := studyPlanPrompt task;
                   inlineData := match att with
                                 | Some a => Some (data a, mimeType a)
                                 | None => None
                                 end |}] |}])%list st1
  end.

(** The message appended when a request settles, and the argument of
    [setSuggestions] when it is called. *)
Definition replyOf (k : RequestKind) (r : Response) : Message * option (list string) :=
  match k, r with
  | ChatTurn, Replied t =>
      let (aiText, chips) := parseSuggestions (orElse t chatFallback) in
      (modelMessage aiText, chips)
  | ChatTurn, Rejected => (modelMessage chatStuck, None)
  | StudyPlanTurn, Replied t => (modelMessage (orElse t planFallback), None)
  | StudyPlanTurn, Rejected => (modelMessage planSnag, None)
  end.

(** The part of a handler that runs when its request settles: the [try]
    body after [await], or [catch], and then [finally]. *)
Definition resolve (req : Request) (r : Response) (st : AppState) : AppState :=
  let (msg, chips) := replyOf (kind req) r in
  let st1 := match chips with
             | Some l => setSuggestions l st
             | None => st
             end in
  let st2 :=
    setIsLoading false
      (setChats
         (updateCurrentChatMessages (reqChatId req) (reqMessages req ++ [msg])%list)
         st1) in
  match kind req with
  | ChatTurn => st2
  | StudyPlanTurn => setAttachedFile None st2
  end.

(** The submit button of the form:
    [disabled={(!input.trim() && !attachedFile) || isLoading}]. *)
Definition sendDisabled (st : AppState) : bool :=
  ((JS.trim (input st) =? "") && negb (isStaged (attachedFile st)))
  || isLoading st.

(** The button of the study-plan form: [disabled={!task.trim() && !attachedFile}]. *)
Definition generateDisabled (task : string) (st : AppState) : bool :=
  (JS.trim task =? "") && negb (isStaged (attachedFile st)).

Fixpoint removeNth {A : Type} (n : nat) (l : list A) : list A :=
  match n, l with
  | _, [] => []
  | O, _ :: t => t
  | S n', h :: t => h :: removeNth n' t
  end.

Inductive Event :=
| EvType (s : string)               (* [onChange] of the text area *)
| EvAttach (f : Attachment)         (* a file was read *)
| EvEnterKey                        (* Enter without Shift in the text area *)
| EvSendButton                      (* click on the submit button *)
| EvChip (n : nat)                  (* click on the n-th suggestion chip *)
| EvOpenStudyPlan                   (* the "Study Plan" action button *)
| EvGenerate (task : string)        (* "Generate 3-Step Plan" *)
| EvSettle (n : nat) (r : Response) (* the n-th outstanding request settles *).

Definition appStep (ev : Event) (st : AppState) : AppState :=
  match ev with
  | EvType s => setInput s st
  | EvAttach f => setAttachedFile (Some f) st
  | EvEnterKey => handleSendMessage None st
  | EvSendButton => if sendDisabled st then st else handleSendMessage None st
  | EvChip n =>
      match nth_error (suggestions st) n with
      | Some s => handleSendMessage (Some s) st
      | None => st
      end
  | EvOpenStudyPlan => setActiveTool studyPlanTool st
  | EvGenerate task =>
      match activeTool st with
      | studyPlanTool =>
          if generateDisabled task st then st
          else generateStudyPlan task (attachedFile st) st
      | _ => st
      end
  | EvSettle n r =>
      match nth_error (pending st) n with
      | Some req => resolve req r (setPending (removeNth n (pending st)) st)
      | None => st
      end
  end.

Definition appRun (evs : list Event) (st : AppState) : AppState :=
  fold_left (fun s ev => appStep ev s) evs st.

(** The messages shown: those of [currentChat]. *)
Definition shownMessages (st : AppState) : list Message :=
  match currentChat (store st) with
  | Some c => messages c
  | None => []
  end.

(** ** Pomodoro timer (App.tsx, 705-746) *)

Inductive Mode := focus | break.

Record Timer := mkTimer {
  focusMinutes : Z;
  breakMinutes : Z;
  timeLeft : Z;
  isActive : bool;
  mode : Mode
}.

Definition initialTimer : Timer :=
  {| focusMinutes := 25; breakMinutes := 5; timeLeft := 25 * 60;
     isActive := false; mode := focus |}.

Definition otherMode (m : Mode) : Mode :=
  match m with focus => break | break => focus end.

Definition duration (t : Timer) (m : Mode) : Z :=
  match m with focus => focusMinutes t | break => breakMinutes t end.

(** The interval is set by the effect when [isActive && timeLeft > 0]. *)
Definition intervalSet (t : Timer) : bool :=
  isActive t && (0 <? timeLeft t)%Z.

(** The state updates of the effect (712-723). *)
Definition effect (t : Timer) : Timer :=
  if intervalSet t then t
  else if (timeLeft t =? 0)%Z then
    let nextMode := otherMode (mode t) in
    {| focusMinutes := focusMinutes t; breakMinutes := breakMinutes t;
       timeLeft := (duration t nextMode * 60)%Z;
       isActive := false; mode := nextMode |}
  else t.

(** The interval callback, [setTimeLeft(t => t - 1)]. *)
Definition decrement (t : Timer) : Timer :=
  {| focusMinutes := focusMinutes t; breakMinutes := breakMinutes t;
     timeLeft := (timeLeft t - 1)%Z; isActive := isActive t; mode := mode t |}.

(** One second: when the interval is set its callback runs once; the
    effect then runs on the new state. *)
Definition tick (t : Timer) : Timer :=
  if intervalSet t then effect (decrement t) else t.

Fixpoint ticks (n : nat) (t : Timer) : Timer :=
  match n with
  | O => t
  | S n' => ticks n' (tick t)
  end.

(** The start and pause button, [setIsActive(!isActive)]. *)
Definition toggle (t : Timer) : Timer :=
  {| focusMinutes := focusMinutes t; breakMinutes := breakMinutes t;
     timeLeft := timeLeft t; isActive := negb (isActive t); mode := mode t |}.

Definition updateFocus (val : Z) (t : Timer) : Timer :=
  let newMin := Z.max 1 (focusMinutes t + val) in
  {| focusMinutes := newMin; breakMinutes := breakMinutes t;
     timeLeft := match isActive t, mode t with
                 | false, focus => (newMin * 60)%Z
                 | _, _ => timeLeft t
                 end;
     isActive := isActive t; mode := mode t |}.

Definition updateBreak (val : Z) (t : Timer) : Timer :=
  let newMin := Z.max 1 (breakMinutes t + val) in
  {| focusMinutes := focusMinutes t; breakMinutes := newMin;
     timeLeft := match isActive t, mode t with
                 | false, break => (newMin * 60)%Z
                 | _, _ => timeLeft t
                 end;
     isActive := isActive t; mode := mode t |}.

(** Both configured durations are at least one minute, as [Math.max(1, _)]
    keeps them. *)
Definition configured (t : Timer) : Prop :=
  (1 <= focusMinutes t)%Z /\ (1 <= breakMinutes t)%Z.

(** What the effect leaves when the countdown is at zero. *)
Definition flipped (t : Timer) : Timer :=
  {| focusMinutes := focusMinutes t; breakMinutes := breakMinutes t;
     timeLeft := (duration t (otherMode (mode t)) * 60)%Z;
     isActive := false; mode := otherMode (mode t) |}.

(** One minute of focus and two of rest, two seconds before the end of a
    rest. *)
Definition lastSecondsOfRest : Timer :=
  {| focusMinutes := 1; breakMinutes := 2; timeLeft := 2; isActive := true;
     mode := break |}.

(** ** Hydration (App.tsx, 96-107) *)

(** The values [JSON.parse] can return.  Numbers are kept as integers, which
    is what [createdAt] holds. *)
#[local] Set Warnings "-register-all".

Inductive JSON :=
| JNull
| JBool (b : bool)
| JNumber (n : Z)
| JString (s : string)
| JArray (l : list JSON)
| JObject (fields : list (string * JSON)).

(** [o[k]] for an object with fields [fs]; [None] is [undefined]. *)
Fixpoint getField (k : string) (fs : list (string * JSON)) : option JSON :=
  match fs with
  | [] => None
  | (k', v) :: rest => if k' =? k then Some v else getField k rest
  end.

Definition isStringValue (v : option JSON) : bool :=
  match v with Some (JString _) => true | _ => false end.

Definition isAttachmentValue (v : JSON) : bool :=
  match v with
  | JObject fs =>
      isStringValue (getField "data" fs) && isStringValue (getField "mimeType" fs)
      && isStringValue (getField "name" fs)
  | _ => false
  end.

(** The shape of [Message] (37-46). *)
Definition isMessageValue (v : JSON) : bool :=
  match v with
  | JObject fs =>
      match getField "role" fs with
      | Some (JString r) => (r =? "user") || (r =? "model")
      | _ => false
      end
      && isStringValue (getField "text" fs)
      && match getField "type" fs with
         | None => true
         | Some (JString t) => (t =? "chat") || (t =? "study-plan") || (t =? "crisis")
         | Some _ => false
         end
      && match getField "attachment" fs with
         | None => true
         | Some a => isAttachmentValue a
         end
  | _ => false
  end.

(** The shape of [Chat] (48-53). *)
Definition isChatValue (v : JSON) : bool :=
  match v with
  | JObject fs =>
      isStringValue (getField "id" fs) && isStringValue (getField "title" fs)
      && match getField "messages" fs with
         | Some (JArray ms) => forallb isMessageValue ms
         | _ => false
         end
      && match getField "createdAt" fs with
         | Some (JNumber _) => true
         | _ => false
         end
  | _ => false
  end.

(** A value is a well-formed store when it is a non-empty array of chats. *)
Definition wellFormedStore (v : JSON) : bool :=
  match v with
  | JArray (c :: l) => forallb isChatValue (c :: l)
  | _ => false
  end.

(** What the initializer of [chats] returns. *)
Inductive Hydrated :=
| FromStorage (v : JSON)        (* [JSON.parse(saved)], as it is *)
| Fresh (l : list Chat).        (* [[initialChat]] *)

(** The initializer of [chats].  [JSON_parse] is the platform's parser,
    [saved] the result of [localStorage.getItem] ([None] for [null]) and
    [now] the value of [Date.now()]. *)
Definition loadChats
  (JSON_parse : string -> Error + JSON) (saved : option string) (now : Z)
  : Error + Hydrated :=
  match saved with
  | Some s =>
      if s =? "" then inr (Fresh [initialChat now])
      else match JSON_parse s with
           | inl e => inl e
           | inr v => inr (FromStorage v)
           end
  | None => inr (Fresh [initialChat now])
  end.

(** [v[0]] on a parsed value; [inr None] is [undefined]. *)
Definition index0 (v : JSON) : Error + option JSON :=
  match v with
  | JNull => inl TypeError
  | JArray l => inr (hd_error l)
  | JString (String c _) => inr (Some (JString (String c "")))
  | JObject fs => inr (getField "0" fs)
  | _ => inr None
  end.

(** [x.id] where [x] is the result of [v[0]]. *)
Definition idOf (x : option JSON) : Error + option JSON :=
  match x with
  | None => inl TypeError
  | Some JNull => inl TypeError
  | Some (JObject fs) => inr (getField "id" fs)
  | Some _ => inr None
  end.

(** The initial value of [currentChatId], [chats[0].id] (107), on a
    hydrated store. *)
Definition firstId (h : Hydrated) : Error + option JSON :=
  match h with
  | Fresh l =>
      match l with
      | c :: _ => inr (Some (JString (id c)))
      | [] => inl TypeError
      end
  | FromStorage v =>
      match index0 v with
      | inl e => inl e
      | inr x => idOf x
      end
  end.

(** A parser that accepts the empty array only: an instance of the
    parser's interface for the blobs used as examples. *)
Definition parseEmptyArrayOnly (s : string) : Error + JSON :=
  if s =? "[]" then inr (JArray []) else inl SyntaxError.

(** ** Example runs of the controller *)

(** A message is sent with the Enter key and, before its reply arrives, a
    second one is typed and sent with the Enter key. *)
Definition firstSend : list Event := [EvType "I feel stuck"; EvEnterKey].

Definition secondSendByEnter : list Event :=
  firstSend ++ [EvType "Where do I start?"; EvEnterKey].

(** A message is sent and, before its reply arrives, a study plan is
    requested from the form. *)
Definition secondSendByForm : list Event :=
  firstSend ++ [EvOpenStudyPlan; EvGenerate "Math Criterion A Summative"].

(** A message is sent and the reply is a directive with nothing around it. *)
Definition directiveOnlyTurn : list Event :=
  firstSend ++ [EvSettle 0 (Replied (Some replyOnlyDirective))].

(** ** Further handlers of the interface *)

(** The text a call of [handleSendMessage] sends:
    [typeof text === 'string' ? text : input]. *)
Definition sentText (arg : option string) (st : AppState) : string :=
  match arg with Some t => t | None => input st end.

(** The user message [handleSendMessage] builds (204-208). *)
Definition sentMessage (arg : option string) (st : AppState) : Message :=
  {| role := user; text := sentText arg st; type := None;
     attachment := attachedFile st |}.

(** [updatedMessages] (210), where [cur] is the shown session. *)
Definition sentMessages (arg : option string) (st : AppState) (cur : Chat)
  : list Message :=
  messages cur ++ [sentMessage arg st].

(** The request of lines 235-254 with what the handler holds at [await]. *)
Definition sentRequest (arg : option string) (st : AppState) (cur : Chat)
  : Request :=
  {| kind := ChatTurn; reqChatId := currentChatId (store st);
     reqMessages := sentMessages arg st cur;
     contents := map contentOf (sentMessages arg st cur) |}.

(** The "Clear Chat" button of the header (454-457). *)
Definition clearedMessages : list Message :=
  [modelMessage "Chat cleared. How are you feeling now?"].

Definition clearChat (st : Store) : Store :=
  {| chats := updateCurrentChatMessages (currentChatId st) clearedMessages (chats st);
     currentChatId := currentChatId st |}.

(** [base64.split(',')[1]] in [handleFileChange] (188-189 and 871-872);
    [None] is [undefined]. *)
Definition dataOfDataUrl (base64 : string) : option string :=
  nth_error (JS.split "," base64) 1.

(** The [src] of the inline preview of an attachment (492, 577, 921). *)
Definition previewSrc (a : Attachment) : string :=
  "data:" ++ mimeType a ++ ";base64," ++ data a.

(** [handleReset] (731-734). *)
Definition handleReset (t : Timer) : Timer :=
  {| focusMinutes := focusMinutes t; breakMinutes := breakMinutes t;
     timeLeft := (duration t (mode t) * 60)%Z; isActive := false;
     mode := mode t |}.

(** The Focus and Rest buttons (752 and 758). *)
Definition selectMode (m : Mode) (t : Timer) : Timer :=
  {| focusMinutes := focusMinutes t; breakMinutes := breakMinutes t;
     timeLeft := (duration t m * 60)%Z; isActive := false; mode := m |}.

(** What can happen to the timer.  The four buttons that change a duration
    are rendered only while the timer is not active (769). *)
Inductive TimerEvent :=
| TSecond                 (* a second passes *)
| TToggle                 (* start or pause *)
| TReset
| TSelect (m : Mode)
| TFocusDown | TFocusUp   (* [updateFocus(-1)], [updateFocus(1)] *)
| TBreakDown | TBreakUp.  (* [updateBreak(-1)], [updateBreak(1)] *)

(** A handler followed by the effect, which runs on the new state. *)
Definition timerStep (ev : TimerEvent) (t : Timer) : Timer :=
  match ev with
  | TSecond => tick t
  | TToggle => effect (toggle t)
  | TReset => effect (handleReset t)
  | TSelect m => effect (selectMode m t)
  | TFocusDown => if isActive t then t else effect (updateFocus (-1) t)
  | TFocusUp => if isActive t then t else effect (updateFocus 1 t)
  | TBreakDown => if isActive t then t else effect (updateBreak (-1) t)
  | TBreakUp => if isActive t then t else effect (updateBreak 1 t)
  end.

Definition timerRun (evs : list TimerEvent) (t : Timer) : Timer :=
  fold_left (fun s ev => timerStep ev s) evs t.

(** [s.padStart(2, '0')] *)
Definition padStart2 (s : string) : string :=
  match String.length s with
  | O => "00"
  | S O => "0" ++ s
  | _ => s
  end.

(** [formatTime] (725-729) on an integer number of seconds. *)
Definition formatTime (s : Z) : string :=
  JS.toString (s / 60) ++ ":" ++ padStart2 (JS.toString (Z.rem s 60)).

(** The character of a decimal digit. *)
Definition digitChar (d : Z) : ascii := ascii_of_nat (48 + Z.to_nat d).

(** ** Breathing exercise (App.tsx, 811-833) *)

Inductive Phase := Inhale | Hold | Exhale.

Record Breathing := mkBreathing {
  phase : Phase;
  count : Z
}.

Definition initialBreathing : Breathing := {| phase := Inhale; count := 4 |}.

(** The interval callback: the updater of [count], which also sets the
    phase. *)
Definition breathe (b : Breathing) : Breathing :=
  if (1 <? count b)%Z then {| phase := phase b; count := (count b - 1)%Z |}
  else match phase b with
       | Inhale => {| phase := Hold; count := 7 |}
       | Hold => {| phase := Exhale; count := 8 |}
       | Exhale => {| phase := Inhale; count := 4 |}
       end.

Fixpoint breaths (n : nat) (b : Breathing) : Breathing :=
  match n with
  | O => b
  | S n' => breaths n' (breathe b)
  end.

(** The seconds a phase lasts. *)
Definition phaseSeconds (p : Phase) : Z :=
  match p with Inhale => 4 | Hold => 7 | Exhale => 8 end.

(** The countdown is within the configured duration of its mode and both
    durations are at least a minute. *)
Definition timerInv (t : Timer) : Prop :=
  configured t /\ (0 < timeLeft t <= duration t (mode t) * 60)%Z.

(** The counter of the breathing exercise is within its phase. *)
Definition breathingInv (b : Breathing) : Prop :=
  (1 <= count b <= phaseSeconds (phase b))%Z.

Definition nextPhase (p : Phase) : Phase :=
  match p with Inhale => Hold | Hold => Exhale | Exhale => Inhale end.

(** ** The whole interface *)

Definition setStore (s : Store) (st : AppState) : AppState :=
  {| store := s; input := input st; isLoading := isLoading st;
     activeTool := activeTool st; attachedFile := attachedFile st;
     suggestions := suggestions st; pending := pending st |}.

(** Everything the user and the network can do to the application. *)
Inductive UiEvent :=
| UiNewSession (now : Z)       (* "New Session", at [Date.now() = now] *)
| UiDeleteSession (i : string) (* the bin of a session *)
| UiSelectSession (n : nat)    (* the button of the n-th session *)
| UiClearChat                  (* "Clear Chat" *)
| UiController (ev : Event).

Definition uiStep (ev : UiEvent) (st : AppState) : Outcome AppState :=
  match ev with
  | UiNewSession now => Returned (setStore (createNewChat now (store st)) st)
  | UiDeleteSession i =>
      match deleteChat i (store st) with
      | Returned s => Returned (setStore s st)
      | Thrown e s => Thrown e (setStore s st)
      end
  | UiSelectSession n =>
      match storeStep (OpSelect n) (store st) with
      | Returned s => Returned (setStore s st)
      | Thrown e s => Thrown e (setStore s st)
      end
  | UiClearChat => Returned (setStore (clearChat (store st)) st)
  | UiController e => Returned (appStep e st)
  end.

(** A thrown error stops the run. *)
Fixpoint uiRun (evs : list UiEvent) (st : AppState) : Outcome AppState :=
  match evs with
  | [] => Returned st
  | ev :: rest =>
      match uiStep ev st with
      | Returned st' => uiRun rest st'
      | Thrown e st' => Thrown e st'
      end
  end.

(** Every stored session has a message. *)
Definition allSeeded (st : AppState) : Prop :=
  Forall (fun c => messages c <> []) (chats (store st)).

(** With nothing outstanding the controller is not loading. *)
Definition idleWhenNothingPending (st : AppState) : Prop :=
  pending st = [] -> isLoading st = false.

(** The user message of a study-plan turn (289-293). *)
Definition planMessage (task : string) (att : option Attachment) : Message :=
  {| role := user; text := "Help me plan for: " ++ task; type := None;
     attachment := att |}.

(** ** Malformed directives and a reply after a switch of session *)

(** A directive with brackets inside its payload. *)
Definition replyNested : string :=
  "Pick one. [SUGGESTIONS: Plan [short], Rest] Ready?".

(** A directive without its closing bracket, followed on its line by a
    bracket that closes something else. *)
Definition replyUnclosedThenBracket : string :=
  "Try this [SUGGESTIONS: Make a plan, Take a break and see note [1] below".

(** A message is sent from the first-run session and, before the reply
    arrives, a new session is created, which becomes the active one. *)
Definition sendThenSwitch : list UiEvent :=
  [UiController (EvType "I feel stuck"); UiController EvEnterKey;
   UiNewSession 1700000000000].

(** The reply then arrives. *)
Definition replyAfterSwitch : list UiEvent :=
  sendThenSwitch
  ++ [UiController (EvSettle 0 (Replied (Some "One step at a time.")))].

(** Ids and message texts of the stored sessions. *)
Definition sessionTexts (st : AppState) : list (string * list string) :=
  map (fun c => (id c, map text (messages c))) (chats (store st)).

(** An update that is given the id [cid] relates a session [c] to [c']:
    id and creation time are kept, and a session with another id is kept
    whole. *)
Definition keptOutside (cid : string) (c c' : Chat) : Prop :=
  id c' = id c /\ createdAt c' = createdAt c /\ (id c <> cid -> c' = c).

(** * Properties *)

(** ** Strings *)

Lemma startsWith_spec (s p : string) :
  JS.startsWith s p = true <-> exists suf, s = p ++ suf.
Proof.
  revert s; induction p as [|a p IH]; intros s.
  - split; [intros _; now exists s | intros _; destruct s; reflexivity].
  - destruct s as [|b s]; simpl.
    + split; [discriminate | intros [suf H]; discriminate].
    + rewrite andb_true_iff, Ascii.eqb_eq, IH. split.
      * intros [-> [suf ->]]. now exists suf.
      * intros [suf H]. injection H as -> ->. split; [reflexivity | now exists suf].
Qed.

Lemma includes_spec (s k : string) :
  JS.includes s k = true <-> exists pre suf, s = pre ++ k ++ suf.
Proof.
  induction s as [|c s IH]; cbn [JS.includes];
    rewrite orb_true_iff, startsWith_spec.
  - split.
    + intros [[suf H] | H]; [|discriminate]. now exists "", suf.
    + intros [pre [suf H]]. left. destruct pre; [now exists suf | discriminate].
  - rewrite IH. split.
    + intros [[suf H] | [pre [suf H]]].
      * now exists "", suf.
      * exists (String c pre), suf. simpl. now rewrite H.
    + intros [pre [suf H]]. destruct pre as [|d pre]; simpl in H.
      * left. now exists suf.
      * right. injection H as _ H. now exists pre, suf.
Qed.

Lemma toLowerCase_app (a b : string) :
  JS.toLowerCase (a ++ b) = JS.toLowerCase a ++ JS.toLowerCase b.
Proof. induction a as [|c a IH]; simpl; [reflexivity | now rewrite IH]. Qed.

Lemma toLowerCase_split (t a b : string) :
  JS.toLowerCase t = a ++ b ->
  exists ta tb, t = ta ++ tb /\ JS.toLowerCase ta = a /\ JS.toLowerCase tb = b.
Proof.
  revert t; induction a as [|c a IH]; intros t H; simpl in H.
  - now exists "", t.
  - destruct t as [|d t]; [discriminate|]. simpl in H. injection H as Hc H.
    destruct (IH _ H) as (ta & tb & -> & Ha & Hb).
    exists (String d ta), tb. simpl. now rewrite Hc, Ha.
Qed.

(** ** Crisis check *)

(** [detect] is true exactly when some part of the text is a keyword up to
    the case of its letters. *)
Lemma detect_spec (messageText : string) :
  detect messageText = true <->
  exists k pre m suf,
    In k CRISIS_KEYWORDS /\ messageText = pre ++ m ++ suf /\ JS.toLowerCase m = k.
Proof.
  unfold detect. rewrite existsb_exists. split.
  - intros (k & Hk & H). apply includes_spec in H. destruct H as (a & b & H).
    apply toLowerCase_split in H. destruct H as (pre & rest & -> & _ & H).
    apply toLowerCase_split in H. destruct H as (m & suf & -> & Hm & _).
    now exists k, pre, m, suf.
  - intros (k & pre & m & suf & Hk & -> & Hm). exists k. split; [exact Hk|].
    apply includes_spec. exists (JS.toLowerCase pre), (JS.toLowerCase suf).
    now rewrite !toLowerCase_app, Hm.
Qed.

(** C1, as stated, fails: no listed phrase occurs in the first example of
    the specification, so the check answers false on it. *)
Lemma detect_hurting_myself_not_flagged :
  detect "I've been thinking about hurting myself lately" <> true.
Proof. vm_compute. discriminate. Qed.

(** C1, amended: the crisis check is a function of the message text alone,
    true exactly when some substring of the text equals a listed phrase up
    to letter case (so it is true on "Sometimes I want to Hurt Myself"); it
    is false on "I've been thinking about hurting myself lately" and false
    on "this homework is killing me". *)
Theorem detect_substring_ignoring_case :
  (forall messageText,
      detect messageText = true <->
      exists k pre m suf,
        In k CRISIS_KEYWORDS /\ messageText = pre ++ m ++ suf
        /\ JS.toLowerCase m = k)
  /\ detect "Sometimes I want to Hurt Myself" = true
  /\ detect "I've been thinking about hurting myself lately" = false
  /\ detect "this homework is killing me" = false.
Proof.
  split; [exact detect_spec | repeat split; vm_compute; reflexivity].
Qed.

(** ** Session store *)

Lemma update_ids (cid : string) (ms : list Message) (l : list Chat) :
  map id (updateCurrentChatMessages cid ms l) = map id l.
Proof.
  unfold updateCurrentChatMessages. rewrite map_map. apply map_ext.
  intros c. now destruct (id c =? cid).
Qed.

Lemma NoDup_ids_filter (f : Chat -> bool) (l : list Chat) :
  NoDup (map id l) -> NoDup (map id (filter f l)).
Proof.
  induction l as [|c l IH]; simpl; intros H; [constructor|].
  inversion H as [|x xs Hnotin Hnd]; subst.
  destruct (f c); simpl; [constructor|]; auto.
  intros Hin. apply Hnotin. apply in_map_iff in Hin.
  destruct Hin as (d & Hd & Hin). apply filter_In in Hin.
  apply in_map_iff. exists d. tauto.
Qed.

(** With distinct ids, removing one id from two or more sessions leaves a
    session. *)
Lemma filter_keeps_one (i : string) (l : list Chat) :
  NoDup (map id l) -> (2 <= List.length l)%nat ->
  filter (fun c => negb (id c =? i)) l <> [].
Proof.
  destruct l as [|a [|b l]]; simpl; try lia. intros H _.
  inversion H as [|x xs Hnotin _]; subst.
  destruct (id a =? i) eqn:Ea; simpl; [|discriminate].
  destruct (id b =? i) eqn:Eb; simpl; [|discriminate].
  apply String.eqb_eq in Ea, Eb. exfalso. apply Hnotin. left. congruence.
Qed.

Lemma deleteChat_inv (i : string) (st : Store) :
  storeInv st -> exists st', deleteChat i st = Returned st' /\ storeInv st'.
Proof.
  intros (Hne & Hnd & Hin). unfold deleteChat.
  destruct (List.length (chats st) =? 1)%nat eqn:E1.
  - exists st. repeat split; assumption.
  - apply Nat.eqb_neq in E1.
    assert (Hlen : (2 <= List.length (chats st))%nat).
    { destruct (chats st) as [|a [|b l]]; simpl in *; try lia; congruence. }
    pose proof (filter_keeps_one i _ Hnd Hlen) as Hkeep.
    pose proof (NoDup_ids_filter (fun c => negb (id c =? i)) _ Hnd) as Hnd'.
    destruct (currentChatId st =? i) eqn:Ecur.
    + destruct (filter _ (chats st)) as [|c l] eqn:Ef; [congruence|].
      eexists. split; [reflexivity|]. unfold storeInv, ids; simpl.
      repeat split; [discriminate | exact Hnd' | now left].
    + eexists. split; [reflexivity|]. unfold storeInv, ids; simpl.
      repeat split; [exact Hkeep | exact Hnd' |].
      unfold ids in Hin. apply in_map_iff in Hin. destruct Hin as (c & Hc & Hin).
      apply in_map_iff. exists c. split; [exact Hc|].
      apply filter_In. split; [exact Hin|]. now rewrite Hc, Ecur.
Qed.

Lemma storeStep_inv (op : StoreOp) (st : Store) :
  storeInv st ->
  match op with
  | OpCreate now => ~ In (JS.toString now) (ids st)
  | _ => True
  end ->
  exists st', storeStep op st = Returned st' /\ storeInv st'.
Proof.
  intros Hinv Hfresh. destruct op as [now | i | ms | n]; simpl.
  - destruct Hinv as (Hne & Hnd & Hin).
    eexists. split; [reflexivity|]. unfold storeInv, ids; simpl.
    repeat split; [discriminate | now constructor | now left].
  - now apply deleteChat_inv.
  - destruct Hinv as (Hne & Hnd & Hin).
    eexists. split; [reflexivity|]. unfold storeInv, ids in *; simpl.
    rewrite update_ids. repeat split; try assumption.
    unfold updateCurrentChatMessages. destruct (chats st); [congruence | discriminate].
  - destruct (nth_error (chats st) n) as [c|] eqn:En.
    + destruct Hinv as (Hne & Hnd & Hin).
      eexists. split; [reflexivity|]. unfold storeInv, ids in *; simpl.
      repeat split; try assumption. apply in_map. eapply nth_error_In; eassumption.
    + now exists st.
Qed.

Lemma storeRun_inv (ops : list StoreOp) :
  forall st, storeInv st -> freshIds ops st ->
  exists st', storeRun ops st = Returned st' /\ storeInv st'.
Proof.
  induction ops as [|op ops IH]; intros st Hinv Hfresh; simpl in *.
  - now exists st.
  - destruct Hfresh as [Hop Hrest].
    destruct (storeStep_inv op st Hinv Hop) as (st1 & Hstep & Hinv1).
    rewrite Hstep in *. now apply IH.
Qed.

Lemma initialStore_inv (now : Z) : storeInv (initialStore now).
Proof.
  unfold storeInv, ids; simpl. repeat split; [discriminate | | now left].
  constructor; [intros [] | constructor].
Qed.

(** C2, the code at the failing input: two sessions created at the same
    value of [Date.now()] share their id; after the first-run session is
    deleted, deleting that id passes the guard on the length, removes both,
    leaves the store without any session and throws at [newChats[0].id]
    where it should activate a stored session. *)
Lemma store_emptied_by_colliding_ids :
  storeRun collidingRun (initialStore 0)
  = Thrown TypeError {| chats := []; currentChatId := "1700000000000" |}
  /\ chats (stateOf (storeRun collidingRun (initialStore 0))) = [].
Proof. split; vm_compute; reflexivity. Qed.

(** X24: [deleteChat] changes nothing when the store holds exactly one
    session; and every run of create, delete, append and select operations
    from the initial state in which each creation draws an id that no
    stored session has returns normally, leaves at least one session in the
    store and leaves the active id naming a stored session (in particular
    after a deletion). *)
Theorem store_keeps_a_session_when_ids_fresh :
  (forall i st, List.length (chats st) = 1%nat -> deleteChat i st = Returned st)
  /\ (forall now ops,
        freshIds ops (initialStore now) ->
        exists st,
          storeRun ops (initialStore now) = Returned st
          /\ chats st <> []
          /\ In (currentChatId st) (ids st)).
Proof.
  split.
  - intros i st H. unfold deleteChat. now rewrite H.
  - intros now ops Hfresh.
    destruct (storeRun_inv ops _ (initialStore_inv now) Hfresh)
      as (st & Hrun & Hne & _ & Hin).
    now exists st.
Qed.

Lemma store_keeps_a_session_witness :
  deleteChat "1" (initialStore 0) = Returned (initialStore 0)
  /\ exists st,
       storeRun [OpCreate 1700000000000; OpCreate 1700000000001;
                 OpDelete "1"; OpDelete "1700000000001"] (initialStore 0)
       = Returned st
       /\ chats st <> [] /\ In (currentChatId st) (ids st).
Proof.
  split.
  - apply (proj1 store_keeps_a_session_when_ids_fresh). reflexivity.
  - apply (proj2 store_keeps_a_session_when_ids_fresh).
    vm_compute. repeat split; intros H;
      repeat (destruct H as [H | H]; try discriminate H); exact H.
Defined.

(** ** Pomodoro timer *)

Lemma effect_at_zero (t : Timer) : timeLeft t = 0%Z -> effect t = flipped t.
Proof.
  intros H. unfold effect, intervalSet. rewrite H. simpl.
  now rewrite andb_false_r.
Qed.

(** With durations of at least a minute the effect has nothing more to do
    after the flip. *)
Lemma effect_stable_after_flip (t : Timer) :
  configured t -> effect (flipped t) = flipped t.
Proof.
  intros [Hf Hb]. unfold effect, intervalSet. simpl.
  destruct (duration t (otherMode (mode t)) * 60 =? 0)%Z eqn:E; [|reflexivity].
  apply Z.eqb_eq in E. unfold duration in E. destruct (otherMode (mode t)); lia.
Qed.

Lemma tick_running (t : Timer) :
  isActive t = true -> (1 < timeLeft t)%Z -> tick t = decrement t.
Proof.
  intros Ha Ht. unfold tick, effect, intervalSet. simpl.
  replace (0 <? timeLeft t)%Z with true by (symmetry; apply Z.ltb_lt; lia).
  replace (0 <? timeLeft t - 1)%Z with true by (symmetry; apply Z.ltb_lt; lia).
  rewrite Ha. reflexivity.
Qed.

Lemma tick_last (t : Timer) :
  isActive t = true -> timeLeft t = 1%Z -> tick t = flipped t.
Proof.
  intros Ha Ht. unfold tick, intervalSet. rewrite Ha, Ht. simpl.
  rewrite effect_at_zero by (simpl; lia). reflexivity.
Qed.

(** A running countdown of [n] seconds ends, after [n] ticks, flipped and
    stopped. *)
Lemma ticks_to_zero (n : nat) :
  forall t, isActive t = true -> timeLeft t = Z.of_nat (S n) ->
  ticks (S n) t = flipped t.
Proof.
  induction n as [|n IH]; intros t Ha Ht.
  - simpl. apply tick_last; [exact Ha | lia].
  - change (ticks (S (S n)) t) with (ticks (S n) (tick t)).
    rewrite tick_running by (try exact Ha; lia).
    rewrite IH; [reflexivity | exact Ha | simpl timeLeft; lia].
Qed.

Lemma updateFocus_configured (val : Z) (t : Timer) :
  configured t -> configured (updateFocus val t).
Proof. intros [Hf Hb]. unfold configured, updateFocus; simpl. lia. Qed.

Lemma updateBreak_configured (val : Z) (t : Timer) :
  configured t -> configured (updateBreak val t).
Proof. intros [Hf Hb]. unfold configured, updateBreak; simpl. lia. Qed.

Lemma tick_configured (t : Timer) : configured t -> configured (tick t).
Proof.
  intros H. unfold tick, effect.
  destruct (intervalSet t); [|exact H].
  destruct (intervalSet (decrement t)); [exact H|].
  destruct (timeLeft (decrement t) =? 0)%Z; exact H.
Qed.

(** C3, as stated, fails: started in focus mode at 25 minutes, after 1500
    ticks the timer is not running. *)
Lemma timer_stopped_after_first_focus :
  isActive (ticks 1500 (toggle initialTimer)) <> true.
Proof. vm_compute. discriminate. Qed.

(** C3, amended: for a running timer in any mode, when the countdown reaches
    zero the mode flips to the other mode, the countdown reloads to the
    configured duration of the new mode, and the run state becomes inactive:
    the timer stops at the flip.  In particular, starting focus at 25
    minutes, after 1500 ticks the mode is rest, the countdown is the
    configured rest duration (300 seconds) and the timer is stopped. *)
Theorem timer_flips_and_stops_at_zero :
  (forall n t,
      isActive t = true -> timeLeft t = Z.of_nat (S n) ->
      let t' := ticks (S n) t in
      mode t' = otherMode (mode t)
      /\ timeLeft t' = (duration t (mode t') * 60)%Z
      /\ isActive t' = false
      /\ focusMinutes t' = focusMinutes t /\ breakMinutes t' = breakMinutes t)
  /\ ticks 1500 (toggle initialTimer)
     = {| focusMinutes := 25; breakMinutes := 5; timeLeft := 5 * 60;
          isActive := false; mode := break |}.
Proof.
  split.
  - intros n t Ha Ht t'. subst t'. rewrite (ticks_to_zero n t Ha Ht).
    simpl. repeat split.
  - vm_compute. reflexivity.
Qed.

Lemma timer_flips_and_stops_witness :
  mode (ticks 2 lastSecondsOfRest) = focus
  /\ timeLeft (ticks 2 lastSecondsOfRest) = 60%Z
  /\ isActive (ticks 2 lastSecondsOfRest) = false.
Proof.
  destruct (proj1 timer_flips_and_stops_at_zero 1%nat lastSecondsOfRest
              eq_refl eq_refl) as (Hm & Ht & Ha & _).
  split; [exact Hm | split; [| exact Ha]].
  rewrite Ht, Hm. reflexivity.
Defined.

(** ** Titles and the frame of an update *)

Lemma Forall2_map_self {A B : Type} (P : A -> B -> Prop) (f : A -> B) (l : list A) :
  (forall a, P a (f a)) -> Forall2 P l (map f l).
Proof. intros H. induction l; simpl; constructor; auto. Qed.

Lemma slice0_length (n : nat) (s : string) :
  String.length (JS.slice0 n s) = Nat.min n (String.length s).
Proof.
  revert s; induction n as [|n IH]; intros [|c s]; simpl; try reflexivity.
  now rewrite IH.
Qed.

Lemma slice0_prefix (n : nat) (s : string) : exists rest, s = JS.slice0 n s ++ rest.
Proof.
  revert s; induction n as [|n IH]; intros [|c s]; simpl.
  - now exists "".
  - now exists (String c s).
  - now exists "".
  - destruct (IH s) as [rest H]. exists rest. now rewrite <- H.
Qed.

Lemma newTitle_default (c : Chat) (ms : list Message) (m : Message) :
  title c = "New Chat" -> find isUser ms = Some m ->
  newTitle c ms
  = JS.slice0 20 (text m) ++ (if (20 <? String.length (text m))%nat then "..." else "").
Proof.
  intros Ht Hm. unfold newTitle. rewrite Ht, Hm.
  assert (E : existsb isUser ms = true).
  { apply existsb_exists. exists m. apply find_some in Hm. exact Hm. }
  rewrite E. reflexivity.
Qed.

Lemma newTitle_kept (c : Chat) (ms : list Message) :
  title c <> "New Chat" -> newTitle c ms = title c.
Proof.
  intros H. unfold newTitle. apply String.eqb_neq in H. now rewrite H.
Qed.

(** C4, as stated, fails: the title derived from the example message is not
    the one the specification gives (21 characters and an ellipsis
    character). *)
Lemma essay_title_is_not_the_specified_one :
  map title (updateCurrentChatMessages "1" essayMessages [initialChat 0])
  <> ["Plan my essay on memo…"].
Proof. vm_compute. discriminate. Qed.

(** C4, amended: for a session still titled "New Chat", an update whose
    messages contain a user message sets the title to the first 20
    characters of the first user message's text, followed by three full
    stops "..." when the text is longer than 20 characters; on the user
    message "Plan my essay on memory and identity" the title becomes exactly
    "Plan my essay on mem..."; a session whose title is not "New Chat" keeps
    its title under every update. *)
Theorem title_from_first_user_message :
  (forall c ms m,
      title c = "New Chat" -> find isUser ms = Some m ->
      newTitle c ms
      = JS.slice0 20 (text m)
        ++ (if (20 <? String.length (text m))%nat then "..." else ""))
  /\ (forall s,
        String.length (JS.slice0 20 s) = Nat.min 20 (String.length s)
        /\ exists rest, s = JS.slice0 20 s ++ rest)
  /\ map title (updateCurrentChatMessages "1" essayMessages [initialChat 0])
     = ["Plan my essay on mem..."]
  /\ (forall cid ms prev,
        Forall2 (fun c c' => title c <> "New Chat" -> title c' = title c)
          prev (updateCurrentChatMessages cid ms prev)).
Proof.
  split; [exact newTitle_default|].
  split; [intros s; split; [apply slice0_length | apply slice0_prefix]|].
  split; [vm_compute; reflexivity|].
  intros cid ms prev. apply Forall2_map_self. intros c H.
  destruct (id c =? cid); simpl; [now apply newTitle_kept | reflexivity].
Qed.

Lemma title_from_first_user_message_witness :
  newTitle (initialChat 0) essayMessages = "Plan my essay on mem..."
  /\ Forall2 (fun c c' => title c <> "New Chat" -> title c' = title c)
       [essayChat] (updateCurrentChatMessages "1" laterMessages [essayChat]).
Proof.
  destruct title_from_first_user_message as (H1 & _ & _ & H4). split.
  - rewrite (H1 (initialChat 0) essayMessages essayMessage eq_refl eq_refl).
    reflexivity.
  - apply H4.
Defined.

Lemma keptOutside_update (cid : string) (ms : list Message) (prev : list Chat) :
  Forall2 (keptOutside cid) prev (updateCurrentChatMessages cid ms prev).
Proof.
  apply Forall2_map_self. intros c. unfold keptOutside.
  destruct (id c =? cid) eqn:E; simpl.
  - apply String.eqb_eq in E. repeat split. intros Hne. contradiction.
  - repeat split.
Qed.

Lemma keptOutside_update_twice (cid : string) (ms1 ms2 : list Message)
  (prev : list Chat) :
  Forall2 (keptOutside cid) prev
    (updateCurrentChatMessages cid ms2 (updateCurrentChatMessages cid ms1 prev)).
Proof.
  unfold updateCurrentChatMessages. rewrite map_map.
  apply Forall2_map_self. intros c. unfold keptOutside.
  destruct (id c =? cid) eqn:E; cbn [id]; rewrite E; simpl.
  - apply String.eqb_eq in E. repeat split. intros Hne. contradiction.
  - repeat split.
Qed.

Lemma keptOutside_same (cid : string) (l : list Chat) :
  Forall2 (keptOutside cid) l l.
Proof. induction l; constructor; [repeat split | assumption]. Qed.

(** C9, as stated, fails: a message is sent from the first-run session, a
    new session is created and becomes active, and the reply then changes
    the messages of the first-run session, whose id is not the active
    id. *)
Lemma reply_changes_a_session_that_is_not_active :
  currentChatId (store (stateOf (uiRun sendThenSwitch (initialApp 0))))
  = "1700000000000"
  /\ sessionTexts (stateOf (uiRun sendThenSwitch (initialApp 0)))
     = [("1700000000000", [welcomeNewChat]);
        ("1", [welcomeFirstRun; "I feel stuck"])]
  /\ currentChatId (store (stateOf (uiRun replyAfterSwitch (initialApp 0))))
     = "1700000000000"
  /\ sessionTexts (stateOf (uiRun replyAfterSwitch (initialApp 0)))
     = [("1700000000000", [welcomeNewChat]);
        ("1", [welcomeFirstRun; "I feel stuck"; "One step at a time."])].
Proof. repeat split; vm_compute; reflexivity. Qed.

(** C9, amended: every update targets only the sessions whose id is the
    [currentChatId] its handler holds: it keeps the number and order of
    sessions, every session with another id is unchanged in all its fields,
    and the id and [createdAt] of every session, the target included, are
    unchanged.  For an update made when the handler starts (a send, a
    study-plan request, clearing the chat, an append to the store) that id
    is the active id, which stays the active id.  For the update made when
    a request settles it is the id that was active when the message was
    sent, whichever session is active by then. *)
Theorem update_touches_only_the_active_session :
  (forall cid newMessages prev,
      Forall2 (fun c c' =>
                 id c' = id c /\ createdAt c' = createdAt c
                 /\ (id c <> cid -> c' = c))
        prev (updateCurrentChatMessages cid newMessages prev))
  /\ (forall newMessages st,
        exists st',
          storeStep (OpAppend newMessages) st = Returned st'
          /\ currentChatId st' = currentChatId st
          /\ Forall2 (fun c c' =>
                        id c' = id c /\ createdAt c' = createdAt c
                        /\ (id c <> currentChatId st -> c' = c))
               (chats st) (chats st'))
  /\ (forall arg st,
        currentChatId (store (handleSendMessage arg st)) = currentChatId (store st)
        /\ Forall2 (keptOutside (currentChatId (store st)))
             (chats (store st)) (chats (store (handleSendMessage arg st))))
  /\ (forall task att st,
        currentChatId (store (generateStudyPlan task att st))
        = currentChatId (store st)
        /\ Forall2 (keptOutside (currentChatId (store st)))
             (chats (store st)) (chats (store (generateStudyPlan task att st))))
  /\ (forall st,
        currentChatId (clearChat st) = currentChatId st
        /\ Forall2 (keptOutside (currentChatId st))
             (chats st) (chats (clearChat st)))
  /\ (forall req r st,
        currentChatId (store (resolve req r st)) = currentChatId (store st)
        /\ Forall2 (keptOutside (reqChatId req))
             (chats (store st)) (chats (store (resolve req r st)))).
Proof.
  split; [exact keptOutside_update|].
  split.
  { intros ms st. eexists. split; [reflexivity|]. split; [reflexivity|].
    apply keptOutside_update. }
  split.
  { intros arg st. unfold handleSendMessage.
    destruct (currentChat (store st)) as [cur|];
      [|split; [reflexivity | apply keptOutside_same]].
    destruct (_ && _); [split; [reflexivity | apply keptOutside_same]|].
    destruct (detect _); (split; [reflexivity|]); cbn.
    - apply keptOutside_update_twice.
    - apply keptOutside_update. }
  split.
  { intros task att st. unfold generateStudyPlan.
    destruct (currentChat (store st)) as [cur|];
      [|split; [reflexivity | apply keptOutside_same]].
    split; [reflexivity|]. cbn. apply keptOutside_update. }
  split.
  { intros st. split; [reflexivity|]. apply keptOutside_update. }
  intros req r st. unfold resolve.
  destruct (replyOf (kind req) r) as [msg [chips|]]; destruct (kind req);
    (split; [reflexivity|]); cbn; apply keptOutside_update.
Qed.

Lemma update_touches_only_the_active_session_witness :
  Forall2 (fun c c' =>
             id c' = id c /\ createdAt c' = createdAt c
             /\ (id c <> "1" -> c' = c))
    (chats (createNewChat 1700000000000 (initialStore 0)))
    (updateCurrentChatMessages "1" essayMessages
       (chats (createNewChat 1700000000000 (initialStore 0)))).
Proof.
  apply (proj1 update_touches_only_the_active_session).
Defined.

(** ** Suggestion directive *)

Lemma append_assoc (a b c : string) : (a ++ b) ++ c = a ++ b ++ c.
Proof. induction a as [|x a IH]; simpl; [reflexivity | now rewrite IH]. Qed.

Lemma dropPrefix_spec (p s r : string) : dropPrefix p s = Some r <-> s = p ++ r.
Proof.
  revert s; induction p as [|a p IH]; intros s.
  - destruct s; simpl; split; congruence.
  - destruct s as [|b s]; simpl; [split; discriminate|].
    destruct (Ascii.eqb_spec a b) as [->|Hne].
    + rewrite IH. split; [intros ->; reflexivity | congruence].
    + split; [discriminate | congruence].
Qed.

Lemma lazyPayload_sound (s p r : string) :
  lazyPayload s = Some (p, r) ->
  s = p ++ "]" ++ r
  /\ allChars notLineTerminator p = true
  /\ allChars (fun c => negb (Ascii.eqb c "]")) p = true.
Proof.
  revert p r; induction s as [|c s IH]; intros p r; simpl; [discriminate|].
  destruct (Ascii.eqb_spec c "]") as [->|Hne].
  - intros H. injection H as <- <-. repeat split.
  - destruct (JS.isLineTerminator c) eqn:Elt; [discriminate|].
    destruct (lazyPayload s) as [[p' r']|]; [|discriminate].
    intros H. injection H as <- <-.
    destruct (IH p' r' eq_refl) as (-> & H1 & H2). simpl.
    unfold notLineTerminator at 1. rewrite Elt, H1, H2.
    apply Ascii.eqb_neq in Hne. rewrite Hne. repeat split.
Qed.

Lemma lazyPayload_complete (payload post : string) :
  allChars notLineTerminator payload = true ->
  exists p r, lazyPayload (payload ++ "]" ++ post) = Some (p, r).
Proof.
  induction payload as [|c s IH]; simpl; intros H.
  - now exists "", post.
  - apply andb_true_iff in H. destruct H as [Hc Hs].
    destruct (Ascii.eqb c "]"); [now eexists _, _|].
    unfold notLineTerminator in Hc. apply negb_true_iff in Hc. rewrite Hc.
    destruct (IH Hs) as (p & r & Hl). simpl in Hl. rewrite Hl. now eexists _, _.
Qed.

Lemma matchSuggestions_sound (s : string) (m : Match) :
  matchSuggestions s = Some m ->
  s = before m ++ directiveOpen ++ group1 m ++ "]" ++ after m
  /\ allChars notLineTerminator (group1 m) = true
  /\ allChars (fun c => negb (Ascii.eqb c "]")) (group1 m) = true.
Proof.
  revert m; induction s as [|c s IH]; intros m; cbn [matchSuggestions].
  - unfold matchAt. simpl. discriminate.
  - destruct (matchAt (String c s)) as [[p r]|] eqn:Eat.
    + intros H. injection H as <-. cbn [before group1 after].
      unfold matchAt in Eat.
      destruct (dropPrefix directiveOpen (String c s)) as [rest|] eqn:Ed;
        [|discriminate].
      apply dropPrefix_spec in Ed. apply lazyPayload_sound in Eat.
      destruct Eat as (-> & H1 & H2). rewrite Ed. repeat split; assumption.
    + destruct (matchSuggestions s) as [m'|]; [|discriminate].
      intros H. injection H as <-. cbn [before group1 after].
      destruct (IH m' eq_refl) as (Hs & H1 & H2).
      repeat split; try assumption. cbn [append]. f_equal. exact Hs.
Qed.

Lemma matchSuggestions_here (s p r : string) :
  matchAt s = Some (p, r) ->
  matchSuggestions s = Some {| before := ""; group1 := p; after := r |}.
Proof. intros H. destruct s; cbn [matchSuggestions]; now rewrite H. Qed.

Lemma matchSuggestions_complete (raw : string) :
  hasDirective raw -> exists m, matchSuggestions raw = Some m.
Proof.
  intros (pre & payload & post & -> & Hp).
  destruct (lazyPayload_complete payload post Hp) as (p & r & Hl).
  remember (directiveOpen ++ payload ++ "]" ++ post) as rest eqn:Erest.
  assert (Eat : matchAt rest = Some (p, r)).
  { unfold matchAt. subst rest.
    rewrite (proj2 (dropPrefix_spec directiveOpen _ (payload ++ "]" ++ post)))
      by reflexivity.
    exact Hl. }
  clear Erest Hl. induction pre as [|c pre IH]; cbn [append].
  - rewrite (matchSuggestions_here _ _ _ Eat). now eexists.
  - cbn [matchSuggestions].
    destruct (matchAt (String c (pre ++ rest))) as [[p' r']|]; [now eexists|].
    destruct IH as (m & ->). now eexists.
Qed.

Lemma matchSuggestions_none (raw : string) :
  ~ hasDirective raw <-> matchSuggestions raw = None.
Proof.
  split.
  - intros H. destruct (matchSuggestions raw) as [m|] eqn:E; [|reflexivity].
    exfalso. apply H. apply matchSuggestions_sound in E.
    destruct E as (E & Hlt & _). now exists (before m), (group1 m), (after m).
  - intros E H. apply matchSuggestions_complete in H. destruct H as (m & H).
    congruence.
Qed.

Lemma split_cons (sep : ascii) (s : string) : exists h t, JS.split sep s = h :: t.
Proof.
  induction s as [|c s (h & t & IH)]; simpl; [now eexists _, _|].
  destruct (Ascii.eqb c sep); [now eexists _, _|]. rewrite IH. now eexists _, _.
Qed.

(** Joining the pieces with the separator gives the text back. *)
Lemma concat_split (sep : ascii) (s : string) :
  String.concat (String sep "") (JS.split sep s) = s.
Proof.
  induction s as [|c s IH]; simpl; [reflexivity|].
  destruct (split_cons sep s) as (h & t & E). rewrite E in *.
  destruct (Ascii.eqb_spec c sep) as [->|Hne].
  - change (String.concat (String sep "") ("" :: h :: t))
      with ("" ++ String sep "" ++ String.concat (String sep "") (h :: t)).
    now rewrite IH.
  - destruct t as [|x t].
    + simpl in *. now rewrite IH.
    + change (String c h ++ String sep "" ++ String.concat (String sep "") (x :: t)
              = String c s).
      change (h ++ String sep "" ++ String.concat (String sep "") (x :: t) = s) in IH.
      change (String c (h ++ String sep "" ++ String.concat (String sep "") (x :: t))
              = String c s).
      f_equal. exact IH.
Qed.

Lemma split_pieces (sep : ascii) (s : string) :
  Forall (fun p => allChars (fun c => negb (Ascii.eqb c sep)) p = true)
    (JS.split sep s).
Proof.
  induction s as [|c s IH]; simpl; [now repeat constructor|].
  destruct (Ascii.eqb c sep) eqn:E; [now constructor|].
  destruct (JS.split sep s) as [|h t]; [now repeat constructor; simpl; rewrite E|].
  inversion IH as [|? ? Hh Ht]; subst. constructor; [|exact Ht].
  simpl. now rewrite E, Hh.
Qed.

Lemma trimStart_spec (s : string) :
  exists l, s = l ++ JS.trimStart s
            /\ allChars JS.isWhiteSpace l = true
            /\ startsWhite (JS.trimStart s) = false.
Proof.
  induction s as [|c s (l & Hs & Hl & Hst)]; simpl; [now exists ""|].
  destruct (JS.isWhiteSpace c) eqn:E.
  - exists (String c l). simpl. rewrite E, Hl. repeat split; [|exact Hst].
    now rewrite <- Hs.
  - exists "". simpl. now rewrite E.
Qed.

Lemma trimEnd_spec (s : string) :
  exists r, s = JS.trimEnd s ++ r
            /\ allChars JS.isWhiteSpace r = true
            /\ endsWhite (JS.trimEnd s) = false.
Proof.
  induction s as [|c s (r & Hs & Hr & Hend)]; [now exists ""|].
  cbn [JS.trimEnd]. destruct (JS.trimEnd s) as [|d t] eqn:Et.
  - simpl in Hs. subst r. destruct (JS.isWhiteSpace c) eqn:E.
    + exists (String c s). simpl. now rewrite E, Hr.
    + exists s. simpl. now rewrite E, Hr.
  - exists r. repeat split; [|exact Hr|exact Hend].
    cbn [append]. f_equal. exact Hs.
Qed.

Lemma trimEnd_starts (s : string) :
  startsWhite s = false -> startsWhite (JS.trimEnd s) = false.
Proof.
  destruct s as [|c s]; [reflexivity|]. cbn [JS.trimEnd startsWhite]. intros E.
  destruct (JS.trimEnd s); [now rewrite E | exact E].
Qed.

Lemma trim_spec (s : string) : isTrimOf s (JS.trim s).
Proof.
  unfold isTrimOf, JS.trim.
  destruct (trimStart_spec s) as (l & Hs & Hl & Hst).
  destruct (trimEnd_spec (JS.trimStart s)) as (r & Hm & Hr & Hend).
  exists l, r. repeat split; try assumption.
  - now rewrite <- Hm.
  - now apply trimEnd_starts.
Qed.

(** C5, as stated, fails: an empty piece of the payload is kept as an
    empty chip. *)
Lemma empty_chip_is_kept :
  parseSuggestions replyWithEmptyChip
  = ("Here are some ideas.", Some ["Make a plan"; ""; "Take a break"])
  /\ exists chips, snd (parseSuggestions replyWithEmptyChip) = Some chips
                   /\ In "" chips.
Proof.
  split; [vm_compute; reflexivity|].
  exists ["Make a plan"; ""; "Take a break"]. split; [vm_compute; reflexivity|].
  simpl. tauto.
Qed.

(** C5, amended: for every reply holding a directive [[SUGGESTIONS: payload]]
    the payload is split on commas and every piece, also an empty one,
    gives one chip, which is the piece without the white space around it;
    the clean text is the reply with the whole matched directive removed and
    the white space around the result trimmed.  On the example of the
    specification the clean text is "Let's break this down." and the chips
    are "Make a plan", "Take a break" and "Talk to someone". *)
Theorem parse_directive_chips_and_clean_text :
  (forall raw,
      hasDirective raw ->
      exists m pieces clean chips,
        matchSuggestions raw = Some m
        /\ raw = before m ++ directiveOpen ++ group1 m ++ "]" ++ after m
        /\ String.concat "," pieces = group1 m
        /\ Forall (fun p => allChars notComma p = true) pieces
        /\ parseSuggestions raw = (clean, Some chips)
        /\ Forall2 isTrimOf pieces chips
        /\ isTrimOf (before m ++ after m) clean)
  /\ parseSuggestions replyWithChips
     = ("Let's break this down.",
        Some ["Make a plan"; "Take a break"; "Talk to someone"]).
Proof.
  split; [|vm_compute; reflexivity].
  intros raw H. destruct (matchSuggestions_complete raw H) as (m & Hm).
  destruct (matchSuggestions_sound raw m Hm) as (Hraw & _ & _).
  exists m, (JS.split "," (group1 m)), (JS.trim (before m ++ after m)),
    (map JS.trim (JS.split "," (group1 m))).
  repeat split.
  - exact Hm.
  - exact Hraw.
  - apply concat_split.
  - apply split_pieces.
  - unfold parseSuggestions. now rewrite Hm.
  - apply Forall2_map_self. apply trim_spec.
  - apply trim_spec.
Qed.

Lemma parse_directive_witness :
  exists m pieces clean chips,
    matchSuggestions replyWithChips = Some m
    /\ replyWithChips = before m ++ directiveOpen ++ group1 m ++ "]" ++ after m
    /\ String.concat "," pieces = group1 m
    /\ Forall (fun p => allChars notComma p = true) pieces
    /\ parseSuggestions replyWithChips = (clean, Some chips)
    /\ Forall2 isTrimOf pieces chips
    /\ isTrimOf (before m ++ after m) clean.
Proof.
  apply (proj1 parse_directive_chips_and_clean_text).
  exists "Let's break this down. ", "Make a plan, Take a break, Talk to someone", "".
  split; reflexivity.
Defined.

Lemma unclosed_has_no_directive (raw : string) :
  JS.includes raw "]" = false -> ~ hasDirective raw.
Proof.
  intros H (pre & payload & post & E & _).
  assert (Hin : JS.includes raw "]" = true).
  { apply includes_spec. exists (pre ++ directiveOpen ++ payload), post.
    rewrite E, !append_assoc. reflexivity. }
  congruence.
Qed.

Lemma parse_no_directive (raw : string) :
  ~ hasDirective raw -> parseSuggestions raw = (raw, None).
Proof.
  intros H. apply matchSuggestions_none in H. unfold parseSuggestions.
  now rewrite H.
Qed.

(** A payload with brackets inside still holds a directive: the match ends
    at the first closing bracket. *)
Example nested_brackets_are_matched :
  parseSuggestions "Pick one. [SUGGESTIONS: Plan [short], Rest] Ready?"
  = ("Pick one. , Rest] Ready?", Some ["Plan [short"]).
Proof. vm_compute. reflexivity. Qed.

(** C6, as stated, fails: a malformed directive is not passed through when
    a closing bracket follows its opening on the line.  With brackets
    nested in the payload, and with the closing bracket missing and a later
    bracket on the line, the text up to the first closing bracket is taken
    out and chips are set. *)
Lemma malformed_directive_is_not_passed_through :
  parseSuggestions replyNested
  = ("Pick one. , Rest] Ready?", Some ["Plan [short"])
  /\ parseSuggestions replyNested <> (replyNested, None)
  /\ parseSuggestions replyUnclosedThenBracket
     = ("Try this  below", Some ["Make a plan"; "Take a break and see note [1"])
  /\ parseSuggestions replyUnclosedThenBracket
     <> (replyUnclosedThenBracket, None).
Proof.
  split; [vm_compute; reflexivity|]. split; [vm_compute; discriminate|].
  split; [vm_compute; reflexivity | vm_compute; discriminate].
Qed.

(** C6, amended: for every reply in which the pattern does not occur (no
    opening "[SUGGESTIONS: " that is followed, before a line terminator, by
    a closing bracket), which covers an absent directive and a directive
    with no closing bracket after it, the text comes back unchanged and no
    chip is set: a chat request that settles with such a reply appends the
    text as it is and leaves the chip list as it was, which is the empty
    list the send left.  The parse is a total function, so it fails on no
    input.  A malformed directive in which the pattern still occurs (nested
    brackets, or a later closing bracket on the line) is not passed
    through: chips are set and the text from the opening to the first
    closing bracket is taken out. *)
Theorem parse_without_directive_is_identity :
  (forall raw, ~ hasDirective raw -> parseSuggestions raw = (raw, None))
  /\ (forall raw, JS.includes raw "]" = false -> parseSuggestions raw = (raw, None))
  /\ (forall raw req st,
        ~ hasDirective raw -> raw <> "" -> kind req = ChatTurn ->
        replyOf ChatTurn (Replied (Some raw)) = (modelMessage raw, None)
        /\ suggestions (resolve req (Replied (Some raw)) st) = suggestions st)
  /\ (forall arg st,
        handleSendMessage arg st = st
        \/ suggestions (handleSendMessage arg st) = [])
  /\ (forall raw req arg st,
        ~ hasDirective raw -> kind req = ChatTurn ->
        handleSendMessage arg st <> st ->
        suggestions (resolve req (Replied (Some raw)) (handleSendMessage arg st))
        = [])
  /\ (forall raw, exists clean chips, parseSuggestions raw = (clean, chips))
  /\ (forall raw,
        hasDirective raw ->
        exists m chips,
          raw = before m ++ directiveOpen ++ group1 m ++ "]" ++ after m
          /\ allChars (fun c => negb (Ascii.eqb c "]")) (group1 m) = true
          /\ parseSuggestions raw = (JS.trim (before m ++ after m), Some chips)).
Proof.
  assert (Hsend : forall arg st,
             handleSendMessage arg st = st
             \/ suggestions (handleSendMessage arg st) = []).
  { intros arg st. unfold handleSendMessage.
    destruct (currentChat (store st)); [|now left].
    destruct (_ && _); [now left|]. right.
    destruct (detect _); reflexivity. }
  assert (Hreply : forall raw, ~ hasDirective raw ->
             snd (replyOf ChatTurn (Replied (Some raw))) = None).
  { intros raw Hno. unfold replyOf, orElse.
    destruct (raw =? ""); [vm_compute; reflexivity|].
    now rewrite (parse_no_directive raw Hno). }
  split; [exact parse_no_directive|].
  split; [intros raw H; apply parse_no_directive;
          now apply unclosed_has_no_directive|].
  split.
  - intros raw req st Hno Hne Hk.
    assert (E : replyOf ChatTurn (Replied (Some raw)) = (modelMessage raw, None)).
    { unfold replyOf, orElse. apply String.eqb_neq in Hne. rewrite Hne.
      now rewrite (parse_no_directive raw Hno). }
    split; [exact E|]. unfold resolve. rewrite Hk, E. reflexivity.
  - split; [exact Hsend|]. split.
    + intros raw req arg st Hno Hk Hacc.
      destruct (Hsend arg st) as [E | E]; [contradiction|].
      unfold resolve. rewrite Hk.
      destruct (replyOf ChatTurn (Replied (Some raw))) as [msg chips] eqn:Er.
      pose proof (Hreply raw Hno) as Hnone. rewrite Er in Hnone.
      simpl in Hnone. subst chips. exact E.
    + split.
      * intros raw. destruct (parseSuggestions raw) as [clean chips].
        now exists clean, chips.
      * intros raw H. destruct (matchSuggestions_complete raw H) as (m & Hm).
        destruct (matchSuggestions_sound raw m Hm) as (Hraw & _ & Hbr).
        exists m, (map JS.trim (JS.split "," (group1 m))).
        repeat split; [exact Hraw | exact Hbr |].
        unfold parseSuggestions. now rewrite Hm.
Qed.

Lemma parse_without_directive_witness :
  parseSuggestions replyPlain = (replyPlain, None)
  /\ parseSuggestions replyUnclosed = (replyUnclosed, None).
Proof.
  destruct parse_without_directive_is_identity as (H1 & H2 & _). split.
  - apply H1. apply matchSuggestions_none. vm_compute. reflexivity.
  - apply H2. vm_compute. reflexivity.
Defined.

(** ** Send controller *)

(** The submit button does nothing while a request is outstanding. *)
Lemma send_button_guarded (st : AppState) :
  isLoading st = true -> appStep EvSendButton st = st.
Proof.
  intros H. unfold appStep, sendDisabled. rewrite H. now rewrite orb_true_r.
Qed.

(** C7, the code at the failing input: with a request outstanding, a second
    message sent with the Enter key, or a study plan requested from the
    form, is accepted: two requests are outstanding and a second user
    message is shown before the first turn has settled.  Only the submit
    button refuses while loading. *)
Theorem second_send_while_loading_is_accepted :
  isLoading (appRun firstSend (initialApp 0)) = true
  /\ List.length (pending (appRun firstSend (initialApp 0))) = 1%nat
  /\ List.length (pending (appRun secondSendByEnter (initialApp 0))) = 2%nat
  /\ map text (filter isUser (shownMessages (appRun secondSendByEnter (initialApp 0))))
     = ["I feel stuck"; "Where do I start?"]
  /\ List.length (pending (appRun secondSendByForm (initialApp 0))) = 2%nat
  /\ map text (filter isUser (shownMessages (appRun secondSendByForm (initialApp 0))))
     = ["I feel stuck"; "Help me plan for: Math Criterion A Summative"]
  /\ (forall st, isLoading st = true -> appStep EvSendButton st = st).
Proof.
  repeat split; try (vm_compute; reflexivity). exact send_button_guarded.
Qed.

Lemma second_send_while_loading_witness :
  List.length (pending (appRun secondSendByEnter (initialApp 0))) = 2%nat
  /\ appStep EvSendButton (appRun [EvType "I feel stuck"; EvEnterKey; EvType "Where do I start?"] (initialApp 0))
     = appRun [EvType "I feel stuck"; EvEnterKey; EvType "Where do I start?"] (initialApp 0).
Proof.
  destruct second_send_while_loading_is_accepted as (_ & _ & H2 & _ & _ & _ & Hg).
  split; [exact H2 | apply Hg; reflexivity].
Defined.

(** C8, the code at the failing input: a reply without text is replaced by
    the fixed apology, but a reply that consists of a directive only is
    stripped to the empty text and appended as an empty model message. *)
Theorem directive_only_reply_appends_empty_message :
  (forall k, exists fallback,
      fallback <> ""
      /\ replyOf k (Replied None) = (modelMessage fallback, None)
      /\ replyOf k (Replied (Some "")) = (modelMessage fallback, None))
  /\ replyOf ChatTurn (Replied (Some replyOnlyDirective))
     = (modelMessage "", Some ["Take a break"])
  /\ map text (shownMessages (appRun directiveOnlyTurn (initialApp 0)))
     = [welcomeFirstRun; "I feel stuck"; ""].
Proof.
  split.
  - intros [|]; [exists chatFallback | exists planFallback];
      (split; [discriminate | split; vm_compute; reflexivity]).
  - split; vm_compute; reflexivity.
Qed.

(** ** Hydration *)

(** C10: when something is stored, hydration returns what the parser
    returns, with no check of its shape and no fresh session: a parser
    error is thrown on, and a parsed value is the store whatever it is.
    For a parser that, like [JSON.parse], rejects the text "not json" and
    reads "[]" as the empty array, the first blob makes hydration fail and
    the second yields an empty store, which is not a well-formed session
    list and on which reading [chats[0].id] throws. *)
Theorem hydration_is_unvalidated :
  forall (JSON_parse : string -> Error + JSON) (now : Z),
    JSON_parse "not json" = inl SyntaxError ->
    JSON_parse "[]" = inr (JArray []) ->
    (forall saved,
        saved <> "" ->
        loadChats JSON_parse (Some saved) now
        = match JSON_parse saved with
          | inl e => inl e
          | inr v => inr (FromStorage v)
          end)
    /\ (forall saved, saved <> "" ->
          loadChats JSON_parse (Some saved) now <> inr (Fresh [initialChat now]))
    /\ loadChats JSON_parse (Some "not json") now = inl SyntaxError
    /\ loadChats JSON_parse (Some "[]") now = inr (FromStorage (JArray []))
    /\ wellFormedStore (JArray []) = false
    /\ firstId (FromStorage (JArray [])) = inl TypeError.
Proof.
  intros JSON_parse now Hbad Hempty.
  assert (Hload : forall saved, saved <> "" ->
            loadChats JSON_parse (Some saved) now
            = match JSON_parse saved with
              | inl e => inl e
              | inr v => inr (FromStorage v)
              end).
  { intros saved Hne. unfold loadChats. apply String.eqb_neq in Hne.
    now rewrite Hne. }
  split; [exact Hload|]. split.
  - intros saved Hne. rewrite (Hload saved Hne).
    destruct (JSON_parse saved); discriminate.
  - rewrite !Hload by discriminate. rewrite Hbad, Hempty. repeat split.
Qed.

Lemma hydration_is_unvalidated_witness :
  loadChats parseEmptyArrayOnly (Some "not json") 0 = inl SyntaxError
  /\ loadChats parseEmptyArrayOnly (Some "[]") 0 = inr (FromStorage (JArray []))
  /\ firstId (FromStorage (JArray [])) = inl TypeError.
Proof.
  destruct (hydration_is_unvalidated parseEmptyArrayOnly 0 eq_refl eq_refl)
    as (_ & _ & H1 & H2 & _ & H3).
  repeat split; assumption.
Defined.

(** * Further properties *)

(** ** Crisis check in context *)

(** X1: text put before or after a flagged message never hides it. *)
Theorem detect_survives_context :
  forall pre messageText suf,
    detect messageText = true -> detect (pre ++ messageText ++ suf) = true.
Proof.
  intros pre t suf H. apply detect_spec in H.
  destruct H as (k & p & m & s & Hk & -> & Hm).
  apply detect_spec. exists k, (pre ++ p), m, (s ++ suf).
  repeat split; try assumption. now rewrite !append_assoc.
Qed.

Lemma detect_survives_context_witness :
  detect ("She wrote: " ++ "I want to END IT ALL" ++ ", and I am scared.") = true.
Proof. apply detect_survives_context. vm_compute. reflexivity. Defined.

(** ** Blank submits *)

Lemma allChars_app (f : ascii -> bool) (a b : string) :
  allChars f (a ++ b) = allChars f a && allChars f b.
Proof.
  induction a as [|c a IH]; simpl; [reflexivity|].
  now rewrite IH, andb_assoc.
Qed.

Lemma trimStart_blank (s : string) :
  allChars JS.isWhiteSpace s = true -> JS.trimStart s = "".
Proof.
  induction s as [|c s IH]; simpl; [reflexivity|]. intros H.
  apply andb_true_iff in H. destruct H as [Hc Hs]. rewrite Hc. now apply IH.
Qed.

(** [trim] gives the empty string exactly on texts made of white space. *)
Lemma trim_blank (s : string) :
  JS.trim s = "" <-> allChars JS.isWhiteSpace s = true.
Proof.
  split.
  - intros E. destruct (trim_spec s) as (l & r & Hs & Hl & Hr & _).
    rewrite E in Hs. rewrite Hs, !allChars_app, Hl, Hr. reflexivity.
  - intros H. unfold JS.trim. now rewrite (trimStart_blank s H).
Qed.

(** X2: with no file staged, a text made of white space only (the empty
    text included) is not sent: the Enter key, the submit button and a chip
    with such a text leave the whole state as it is. *)
Theorem blank_submit_is_ignored :
  forall arg st,
    attachedFile st = None ->
    allChars JS.isWhiteSpace (sentText arg st) = true ->
    handleSendMessage arg st = st
    /\ (arg = None ->
        appStep EvEnterKey st = st /\ appStep EvSendButton st = st).
Proof.
  intros arg st Hatt Hblank.
  assert (H : handleSendMessage arg st = st).
  { unfold handleSendMessage. destruct (currentChat (store st)); [|reflexivity].
    fold (sentText arg st). rewrite (proj2 (trim_blank _) Hblank), Hatt.
    reflexivity. }
  split; [exact H|]. intros ->. split; [exact H|].
  unfold appStep. destruct (sendDisabled st); [reflexivity | exact H].
Qed.

Lemma blank_submit_is_ignored_witness :
  appStep EvEnterKey (setInput "  " (initialApp 0)) = setInput "  " (initialApp 0).
Proof.
  apply (blank_submit_is_ignored None (setInput "  " (initialApp 0)) eq_refl eq_refl).
  reflexivity.
Defined.

(** ** Turns of the controller *)

Lemma find_update (cid : string) (ms : list Message) (l : list Chat) :
  In cid (map id l) ->
  exists c, find (fun c => id c =? cid) (updateCurrentChatMessages cid ms l) = Some c
            /\ messages c = ms /\ id c = cid.
Proof.
  induction l as [|c l IH]; simpl; [intros []|]. intros H.
  destruct (id c =? cid) eqn:E; simpl.
  - rewrite E. eexists. split; [reflexivity|]. simpl.
    apply String.eqb_eq in E. now split.
  - rewrite E. apply IH. destruct H as [H | H]; [|exact H].
    apply String.eqb_neq in E. contradiction.
Qed.

(** The shown session after an update of a stored active session holds the
    messages of the update. *)
Lemma currentChat_update (cid : string) (ms : list Message) (l : list Chat) :
  In cid (map id l) ->
  exists c, currentChat {| chats := updateCurrentChatMessages cid ms l;
                           currentChatId := cid |} = Some c
            /\ messages c = ms.
Proof.
  intros H. destruct (find_update cid ms l H) as (c & Hf & Hm & _).
  exists c. unfold currentChat. simpl. now rewrite Hf.
Qed.

Lemma update_members (cid : string) (ms : list Message) (l : list Chat) (c' : Chat) :
  In c' (updateCurrentChatMessages cid ms l) -> id c' = cid -> messages c' = ms.
Proof.
  unfold updateCurrentChatMessages. intros H Hid. apply in_map_iff in H.
  destruct H as (c & <- & _). destruct (id c =? cid) eqn:E; [reflexivity|].
  apply String.eqb_neq in E. contradiction.
Qed.

Lemma update_absent (cid : string) (ms : list Message) (l : list Chat) :
  ~ In cid (map id l) -> updateCurrentChatMessages cid ms l = l.
Proof.
  unfold updateCurrentChatMessages. induction l as [|c l IH]; simpl; [reflexivity|].
  intros H. destruct (id c =? cid) eqn:E.
  - apply String.eqb_eq in E. exfalso. apply H. now left.
  - f_equal. apply IH. intros Hin. apply H. now right.
Qed.

Lemma accepted_not_blank (arg : option string) (st : AppState) :
  JS.trim (sentText arg st) <> "" \/ attachedFile st <> None ->
  (JS.trim (sentText arg st) =? "") && negb (isStaged (attachedFile st)) = false.
Proof.
  intros [H | H].
  - apply String.eqb_neq in H. now rewrite H.
  - destruct (attachedFile st); [|contradiction]. simpl. apply andb_false_r.
Qed.

(** The state a send that is accepted and not flagged leaves. *)
Lemma handleSendMessage_sent (arg : option string) (st : AppState) (cur : Chat) :
  currentChat (store st) = Some cur ->
  JS.trim (sentText arg st) <> "" \/ attachedFile st <> None ->
  detect (sentText arg st) = false ->
  handleSendMessage arg st
  = {| store :=
         {| chats := updateCurrentChatMessages (currentChatId (store st))
                       (sentMessages arg st cur) (chats (store st));
            currentChatId := currentChatId (store st) |};
       input := ""; isLoading := true; activeTool := activeTool st;
       attachedFile := None; suggestions := [];
       pending := (pending st ++ [sentRequest arg st cur])%list |}.
Proof.
  intros Hcur Hacc Hdet. unfold handleSendMessage. rewrite Hcur.
  fold (sentText arg st). rewrite (accepted_not_blank arg st Hacc), Hdet.
  reflexivity.
Qed.

Lemma shown_after_update (st : AppState) (ms : list Message) (l : list Chat) :
  store st = {| chats := updateCurrentChatMessages (currentChatId (store st)) ms l;
                currentChatId := currentChatId (store st) |} ->
  In (currentChatId (store st)) (map id l) ->
  shownMessages st = ms.
Proof.
  intros Hst Hin. unfold shownMessages. rewrite Hst.
  destruct (currentChat_update _ ms l Hin) as (c & Hc & Hm).
  cbn [currentChatId] in *. now rewrite Hc.
Qed.

(** X3: a send that is accepted (text not blank, or a file staged) and not
    flagged, in a state whose active id is stored, appends the user message
    with the staged file to the shown messages, issues exactly one request,
    whose contents are all shown messages in order, the new one included,
    and clears the input, the staged file and the chips. *)
Theorem send_appends_and_issues_one_request :
  forall arg st cur,
    currentChat (store st) = Some cur ->
    In (currentChatId (store st)) (ids (store st)) ->
    JS.trim (sentText arg st) <> "" \/ attachedFile st <> None ->
    detect (sentText arg st) = false ->
    shownMessages (handleSendMessage arg st)
    = (messages cur ++ [sentMessage arg st])%list
    /\ (exists req,
          pending (handleSendMessage arg st) = (pending st ++ [req])%list
          /\ kind req = ChatTurn
          /\ reqChatId req = currentChatId (store st)
          /\ contents req = map contentOf (shownMessages (handleSendMessage arg st)))
    /\ isLoading (handleSendMessage arg st) = true
    /\ input (handleSendMessage arg st) = ""
    /\ attachedFile (handleSendMessage arg st) = None
    /\ suggestions (handleSendMessage arg st) = [].
Proof.
  intros arg st cur Hcur Hin Hacc Hdet.
  assert (Hshown : shownMessages (handleSendMessage arg st) = sentMessages arg st cur).
  { rewrite (handleSendMessage_sent arg st cur Hcur Hacc Hdet).
    apply (shown_after_update _ _ (chats (store st))); [reflexivity | exact Hin]. }
  rewrite Hshown. rewrite (handleSendMessage_sent arg st cur Hcur Hacc Hdet).
  split; [reflexivity|]. split; [|repeat split].
  exists (sentRequest arg st cur). repeat split.
Qed.

Lemma send_appends_witness :
  shownMessages (handleSendMessage None (setInput "I feel stuck" (initialApp 0)))
  = (messages (initialChat 0)
     ++ [sentMessage None (setInput "I feel stuck" (initialApp 0))])%list.
Proof.
  apply (send_appends_and_issues_one_request None
           (setInput "I feel stuck" (initialApp 0)) (initialChat 0) eq_refl).
  - left. reflexivity.
  - left. vm_compute. discriminate.
  - vm_compute. reflexivity.
Defined.







Lemma resolve_store (req : Request) (r : Response) (st : AppState) :
  store (resolve req r st)
  = {| chats := updateCurrentChatMessages (reqChatId req)
                  (reqMessages req ++ [fst (replyOf (kind req) r)])
                  (chats (store st));
       currentChatId := currentChatId (store st) |}.
Proof.
  unfold resolve. destruct (replyOf (kind req) r) as [msg [chips|]];
    destruct (kind req); reflexivity.
Qed.

Lemma resolve_pending (req : Request) (r : Response) (st : AppState) :
  pending (resolve req r st) = pending st.
Proof.
  unfold resolve. destruct (replyOf (kind req) r) as [msg [chips|]];
    destruct (kind req); reflexivity.
Qed.

Lemma resolve_isLoading (req : Request) (r : Response) (st : AppState) :
  isLoading (resolve req r st) = false.
Proof.
  unfold resolve. destruct (replyOf (kind req) r) as [msg [chips|]];
    destruct (kind req); reflexivity.
Qed.

(** X5: when a request settles, every stored session with the id the
    request was sent from gets the messages the handler held at the send
    followed by the reply, whatever the session holds by then; the reply
    never changes which session is active; when no stored session has that
    id any more, the sessions are left as they are; and loading is switched
    off, also when other requests are still outstanding. *)
Theorem reply_restores_the_snapshot :
  forall req r st,
    currentChatId (store (resolve req r st)) = currentChatId (store st)
    /\ (forall c, In c (chats (store (resolve req r st))) ->
                  id c = reqChatId req ->
                  messages c
                  = (reqMessages req ++ [fst (replyOf (kind req) r)])%list)
    /\ (~ In (reqChatId req) (ids (store st)) ->
        chats (store (resolve req r st)) = chats (store st))
    /\ isLoading (resolve req r st) = false
    /\ pending (resolve req r st) = pending st.
Proof.
  intros req r st. rewrite resolve_store, resolve_isLoading, resolve_pending.
  cbn [chats currentChatId]. repeat split.
  - intros c Hc Hid. eapply update_members; eassumption.
  - intros H. now apply update_absent.
Qed.

Lemma reply_restores_the_snapshot_witness :
  chats (store (resolve (sentRequest None (setInput "I feel stuck" (initialApp 0))
                          (initialChat 0))
                  Rejected (initialApp 0)))
  <> chats (store (initialApp 0))
  /\ chats (store (resolve {| kind := ChatTurn; reqChatId := "1700000000000";
                              reqMessages := []; contents := [] |}
                     Rejected (initialApp 0)))
     = chats (store (initialApp 0)).
Proof.
  split; [vm_compute; discriminate|].
  apply (reply_restores_the_snapshot
           {| kind := ChatTurn; reqChatId := "1700000000000";
              reqMessages := []; contents := [] |} Rejected (initialApp 0)).
  vm_compute. intros [H | []]. discriminate H.
Defined.

Lemma removeNth_length {A : Type} (n : nat) (l : list A) :
  (n < List.length l)%nat -> List.length (removeNth n l) = (List.length l - 1)%nat.
Proof.
  revert n; induction l as [|a l IH]; intros [|n]; simpl; try lia.
  intros H. rewrite IH by lia. lia.
Qed.

Lemma removeNth_last {A : Type} (l : list A) (x : A) :
  removeNth (List.length l) (l ++ [x]) = l.
Proof. induction l as [|a l IH]; simpl; [reflexivity | now rewrite IH]. Qed.

Lemma nth_error_last {A : Type} (l : list A) (x : A) :
  nth_error (l ++ [x]) (List.length l) = Some x.
Proof. induction l as [|a l IH]; simpl; [reflexivity | exact IH]. Qed.

(** X6: a request that settles, with a reply or with a failure, leaves the
    list of outstanding requests one shorter and issues no new request (no
    retry); settling a request that is not outstanding changes nothing. *)
Theorem settle_consumes_one_request :
  forall n r st,
    ((n < List.length (pending st))%nat ->
     List.length (pending (appStep (EvSettle n r) st))
     = (List.length (pending st) - 1)%nat)
    /\ ((List.length (pending st) <= n)%nat -> appStep (EvSettle n r) st = st).
Proof.
  intros n r st. unfold appStep. split; intros H.
  - destruct (nth_error (pending st) n) as [req|] eqn:E.
    + rewrite resolve_pending. cbn [pending setPending].
      now apply removeNth_length.
    + apply nth_error_None in E. lia.
  - apply nth_error_None in H. now rewrite H.
Qed.

Lemma settle_consumes_one_request_witness :
  List.length (pending (appStep (EvSettle 0 Rejected)
                          (appRun secondSendByEnter (initialApp 0)))) = 1%nat
  /\ appStep (EvSettle 0 Rejected) (initialApp 0) = initialApp 0.
Proof.
  split.
  - apply (proj1 (settle_consumes_one_request 0 Rejected
                    (appRun secondSendByEnter (initialApp 0)))).
    vm_compute. lia.
  - apply (proj2 (settle_consumes_one_request 0 Rejected (initialApp 0))).
    vm_compute. lia.
Defined.

(** X7: a whole turn with nothing in between: after an accepted, unflagged
    send in a state whose active id is stored, when the request it issued
    settles, the shown messages are the ones before the send followed by
    the user message and the reply message, the outstanding requests are
    the ones before the send, and the controller is not loading. *)
Theorem turn_appends_message_and_reply :
  forall arg st cur r,
    currentChat (store st) = Some cur ->
    In (currentChatId (store st)) (ids (store st)) ->
    JS.trim (sentText arg st) <> "" \/ attachedFile st <> None ->
    detect (sentText arg st) = false ->
    shownMessages
      (appStep (EvSettle (List.length (pending st)) r) (handleSendMessage arg st))
    = (messages cur ++ [sentMessage arg st; fst (replyOf ChatTurn r)])%list
    /\ pending
         (appStep (EvSettle (List.length (pending st)) r) (handleSendMessage arg st))
       = pending st
    /\ isLoading
         (appStep (EvSettle (List.length (pending st)) r) (handleSendMessage arg st))
       = false.
Proof.
  intros arg st cur r Hcur Hin Hacc Hdet.
  rewrite (handleSendMessage_sent arg st cur Hcur Hacc Hdet).
  unfold appStep. cbn [pending]. rewrite nth_error_last, removeNth_last.
  rewrite resolve_isLoading, resolve_pending. split; [|split; reflexivity].
  apply (shown_after_update _ _
           (updateCurrentChatMessages (currentChatId (store st))
              (sentMessages arg st cur) (chats (store st)))).
  - rewrite resolve_store. cbn. unfold sentMessages.
    now rewrite <- app_assoc.
  - rewrite resolve_store. cbn [currentChatId store setPending].
    rewrite update_ids. exact Hin.
Qed.

Lemma turn_appends_witness :
  map text
    (shownMessages
       (appStep (EvSettle 0 (Replied (Some "One step at a time.")))
          (handleSendMessage None (setInput "I feel stuck" (initialApp 0)))))
  = [welcomeFirstRun; "I feel stuck"; "One step at a time."].
Proof.
  assert (Hacc : JS.trim (sentText None (setInput "I feel stuck" (initialApp 0))) <> ""
                 \/ attachedFile (setInput "I feel stuck" (initialApp 0)) <> None).
  { left. vm_compute. discriminate. }
  pose proof (proj1 (turn_appends_message_and_reply None
                       (setInput "I feel stuck" (initialApp 0)) (initialChat 0)
                       (Replied (Some "One step at a time.")) eq_refl
                       (or_introl eq_refl) Hacc eq_refl)) as H.
  change (List.length (pending (setInput "I feel stuck" (initialApp 0))))
    with 0%nat in H.
  rewrite H. reflexivity.
Defined.

Lemma orElse_nonempty (x : option string) (d : string) : d <> "" -> orElse x d <> "".
Proof.
  intros Hd. unfold orElse. destruct x as [s|]; [|exact Hd].
  destruct (s =? "") eqn:E; [exact Hd | now apply String.eqb_neq].
Qed.

(** X8: the message appended when a request settles has an empty text only
    for a chat request whose reply holds a suggestion directive: every
    failure message, every study-plan reply and every chat reply without a
    directive has a text that is not empty. *)
Theorem only_a_directive_empties_a_reply :
  forall k r,
    text (fst (replyOf k r)) = "" ->
    k = ChatTurn /\ exists t, r = Replied (Some t) /\ t <> "" /\ hasDirective t.
Proof.
  intros k r H. destruct k, r as [|t]; simpl in H; try discriminate H.
  - split; [reflexivity|].
    destruct (parseSuggestions (orElse t chatFallback)) as [aiText chips] eqn:Ep.
    simpl in H. subst aiText.
    assert (Hdir : hasDirective (orElse t chatFallback)).
    { destruct (matchSuggestions (orElse t chatFallback)) as [m|] eqn:Em.
      - apply matchSuggestions_sound in Em. destruct Em as (E & Hlt & _).
        now exists (before m), (group1 m), (after m).
      - exfalso. unfold parseSuggestions in Ep. rewrite Em in Ep.
        injection Ep as Ep _. revert Ep. apply orElse_nonempty. discriminate. }
    destruct t as [t|].
    + unfold orElse in Hdir. destruct (t =? "") eqn:Et.
      * exfalso. apply matchSuggestions_none in Hdir; [exact Hdir|].
        vm_compute. reflexivity.
      * exists t. apply String.eqb_neq in Et. now repeat split.
    + exfalso. apply matchSuggestions_none in Hdir; [exact Hdir|].
      vm_compute. reflexivity.
  - exfalso. revert H. apply orElse_nonempty. discriminate.
Qed.

Lemma only_a_directive_witness :
  ChatTurn = ChatTurn
  /\ exists t, Replied (Some replyOnlyDirective) = Replied (Some t)
               /\ t <> "" /\ hasDirective t.
Proof.
  apply (only_a_directive_empties_a_reply ChatTurn
           (Replied (Some replyOnlyDirective))).
  vm_compute. reflexivity.
Defined.

(** ** More on the suggestion directive *)

Lemma allChars_split (f : ascii -> bool) (sep : ascii) (s : string) :
  allChars f s = true -> Forall (fun p => allChars f p = true) (JS.split sep s).
Proof.
  induction s as [|c s IH]; simpl; [now repeat constructor|]. intros H.
  apply andb_true_iff in H. destruct H as [Hc Hs]. specialize (IH Hs).
  destruct (Ascii.eqb c sep); [now constructor|].
  destruct (JS.split sep s) as [|h t];
    [now repeat constructor; simpl; rewrite Hc|].
  inversion IH as [|? ? Hh Ht]; subst. constructor; [|exact Ht].
  simpl. now rewrite Hc, Hh.
Qed.

Lemma allChars_trim (f : ascii -> bool) (s : string) :
  allChars f s = true -> allChars f (JS.trim s) = true.
Proof.
  intros H. destruct (trim_spec s) as (l & r & Hs & _).
  rewrite Hs, !allChars_app in H.
  apply andb_true_iff in H. destruct H as [_ H].
  apply andb_true_iff in H. now destruct H.
Qed.

(** X9: whenever chips are set there is at least one, and every chip is
    free of commas, closing brackets and line terminators and has no white
    space at its start or end. *)
Theorem chips_are_clean :
  forall raw clean chips,
    parseSuggestions raw = (clean, Some chips) ->
    chips <> []
    /\ Forall (fun chip =>
                 allChars notComma chip = true
                 /\ allChars (fun c => negb (Ascii.eqb c "]")) chip = true
                 /\ allChars notLineTerminator chip = true
                 /\ startsWhite chip = false /\ endsWhite chip = false) chips.
Proof.
  intros raw clean chips H. unfold parseSuggestions in H.
  destruct (matchSuggestions raw) as [m|] eqn:Em; [|discriminate].
  injection H as _ <-. apply matchSuggestions_sound in Em.
  destruct Em as (_ & Hlt & Hbr). split.
  - destruct (split_cons "," (group1 m)) as (h & t & ->). discriminate.
  - pose proof (split_pieces "," (group1 m)) as Hc.
    pose proof (allChars_split _ "," _ Hlt) as Hl.
    pose proof (allChars_split _ "," _ Hbr) as Hb.
    induction (JS.split "," (group1 m)) as [|p ps IH]; simpl; constructor.
    + inversion Hc; inversion Hl; inversion Hb; subst.
      destruct (trim_spec p) as (l & r & _ & _ & _ & Hs & He).
      repeat split; try assumption; now apply allChars_trim.
    + inversion Hc; inversion Hl; inversion Hb; subst. now apply IH.
Qed.

Lemma chips_are_clean_witness :
  ["Make a plan"; "Take a break"; "Talk to someone"] <> []
  /\ Forall (fun chip =>
               allChars notComma chip = true
               /\ allChars (fun c => negb (Ascii.eqb c "]")) chip = true
               /\ allChars notLineTerminator chip = true
               /\ startsWhite chip = false /\ endsWhite chip = false)
       ["Make a plan"; "Take a break"; "Talk to someone"].
Proof.
  apply (chips_are_clean replyWithChips "Let's break this down.").
  vm_compute. reflexivity.
Defined.

Lemma matchAt_complete (payload post : string) :
  allChars notLineTerminator payload = true ->
  matchAt (directiveOpen ++ payload ++ "]" ++ post) <> None.
Proof.
  intros Hp. destruct (lazyPayload_complete payload post Hp) as (p & r & Hl).
  unfold matchAt.
  rewrite (proj2 (dropPrefix_spec directiveOpen _ (payload ++ "]" ++ post)))
    by reflexivity.
  rewrite Hl. discriminate.
Qed.

(** X10: the match is the leftmost directive of the text and its payload
    is the shortest one: no directive starts before it, and the payload
    holds no closing bracket. *)
Theorem first_directive_is_matched :
  forall raw m,
    matchSuggestions raw = Some m ->
    allChars (fun c => negb (Ascii.eqb c "]")) (group1 m) = true
    /\ forall pre payload post,
         raw = pre ++ directiveOpen ++ payload ++ "]" ++ post ->
         allChars notLineTerminator payload = true ->
         (String.length (before m) <= String.length pre)%nat.
Proof.
  intros raw m Hm. split; [now apply (matchSuggestions_sound raw m)|].
  revert m Hm. induction raw as [|c s IH]; intros m; cbn [matchSuggestions].
  - unfold matchAt. simpl. discriminate.
  - destruct (matchAt (String c s)) as [[p r]|] eqn:Eat.
    + intros H. injection H as <-. simpl. intros. lia.
    + destruct (matchSuggestions s) as [m'|] eqn:Em; [|discriminate].
      intros H. injection H as <-. cbn [before].
      intros pre payload post Hraw Hp. destruct pre as [|c' pre].
      * exfalso. cbn [append] in Hraw. rewrite Hraw in Eat.
        now apply (matchAt_complete payload post Hp).
      * cbn [append] in Hraw. injection Hraw as _ Hs. simpl.
        apply le_n_S. now apply (IH m' eq_refl pre payload post).
Qed.

Lemma first_directive_witness :
  (String.length
     (before {| before := "Plan "; group1 := "A";
                after := " or [SUGGESTIONS: B]" |}) <= 5)%nat.
Proof.
  apply (proj2 (first_directive_is_matched
                  "Plan [SUGGESTIONS: A] or [SUGGESTIONS: B]"
                  {| before := "Plan "; group1 := "A";
                     after := " or [SUGGESTIONS: B]" |} eq_refl)
           "Plan " "A" " or [SUGGESTIONS: B]");
    reflexivity.
Defined.

Lemma hasDirective_trimStart (s : string) :
  hasDirective s -> hasDirective (JS.trimStart s).
Proof.
  intros (pre & payload & post & -> & Hp).
  induction pre as [|c pre IH].
  - exists "", payload, post. split; [reflexivity | exact Hp].
  - cbn [append JS.trimStart]. destruct (JS.isWhiteSpace c); [exact IH|].
    exists (String c pre), payload, post. split; [reflexivity | exact Hp].
Qed.

Lemma trimEnd_app_nonwhite (a b : string) (x : ascii) :
  JS.isWhiteSpace x = false ->
  JS.trimEnd (a ++ String x b) = a ++ String x (JS.trimEnd b).
Proof.
  intros Hx. induction a as [|c a IH]; cbn [append JS.trimEnd].
  - rewrite Hx. now destruct (JS.trimEnd b).
  - rewrite IH. now destruct a.
Qed.

Lemma hasDirective_trimEnd (s : string) :
  hasDirective s -> hasDirective (JS.trimEnd s).
Proof.
  intros (pre & payload & post & -> & Hp).
  exists pre, payload, (JS.trimEnd post). split; [|exact Hp].
  replace (pre ++ directiveOpen ++ payload ++ "]" ++ post)
    with ((pre ++ directiveOpen ++ payload) ++ String "]" post)
    by (rewrite !append_assoc; reflexivity).
  rewrite trimEnd_app_nonwhite by reflexivity.
  rewrite !append_assoc. reflexivity.
Qed.

(** X11: only the first directive is taken out: when the text after the
    match holds another directive, the clean text still holds a
    directive. *)
Theorem later_directive_stays_in_text :
  forall raw m,
    matchSuggestions raw = Some m ->
    hasDirective (after m) ->
    hasDirective (fst (parseSuggestions raw)).
Proof.
  intros raw m Hm (pre & payload & post & Ha & Hp).
  unfold parseSuggestions. rewrite Hm. cbn [fst]. unfold JS.trim.
  apply hasDirective_trimEnd, hasDirective_trimStart.
  exists (before m ++ pre), payload, post. split; [|exact Hp].
  now rewrite Ha, append_assoc.
Qed.

Lemma later_directive_witness :
  hasDirective (fst (parseSuggestions "Plan [SUGGESTIONS: A] or [SUGGESTIONS: B]")).
Proof.
  apply (later_directive_stays_in_text
           "Plan [SUGGESTIONS: A] or [SUGGESTIONS: B]"
           {| before := "Plan "; group1 := "A"; after := " or [SUGGESTIONS: B]" |}
           eq_refl).
  exists " or ", "B", "". split; reflexivity.
Defined.

(** ** More on the session store *)

(** X12: a derived title is never longer than 23 characters, and up to its
    first 20 characters it is the start of the first user message. *)
Theorem derived_title_is_short :
  forall c ms m,
    title c = "New Chat" -> find isUser ms = Some m ->
    (String.length (newTitle c ms) <= 23)%nat
    /\ exists dots rest,
         newTitle c ms = JS.slice0 20 (text m) ++ dots
         /\ text m = JS.slice0 20 (text m) ++ rest
         /\ (dots = "" /\ rest = "" \/ dots = "..." /\ rest <> "").
Proof.
  intros c ms m Ht Hm. rewrite (newTitle_default c ms m Ht Hm).
  assert (Hlen : forall a b, String.length (a ++ b)
                             = (String.length a + String.length b)%nat).
  { intros a b. induction a; simpl; [reflexivity | now rewrite IHa]. }
  destruct (slice0_prefix 20 (text m)) as (rest & Hrest).
  pose proof (slice0_length 20 (text m)) as Hs.
  pose proof (f_equal String.length Hrest) as Hl. rewrite Hlen in Hl.
  destruct (20 <? String.length (text m))%nat eqn:E.
  - apply Nat.ltb_lt in E.
    split; [rewrite Hlen, Hs; change (String.length "...") with 3%nat; lia|].
    exists "...", rest. repeat split; [exact Hrest|]. right.
    split; [reflexivity|]. intros ->. rewrite Hs in Hl.
    change (String.length "") with 0%nat in Hl. lia.
  - apply Nat.ltb_ge in E.
    split; [rewrite Hlen, Hs; change (String.length "") with 0%nat; lia|].
    exists "", rest. repeat split; [exact Hrest|]. left.
    split; [reflexivity|]. destruct rest as [|x rest]; [reflexivity|].
    rewrite Hs in Hl. cbn [String.length] in Hl. lia.
Qed.

Lemma derived_title_witness :
  (String.length (newTitle (initialChat 0) essayMessages) <= 23)%nat.
Proof.
  apply (derived_title_is_short (initialChat 0) essayMessages essayMessage
           eq_refl eq_refl).
Defined.

Lemma filter_fresh (i : string) (l : list Chat) :
  ~ In i (map id l) -> filter (fun c => negb (id c =? i)) l = l.
Proof.
  induction l as [|c l IH]; simpl; [reflexivity|]. intros H.
  destruct (id c =? i) eqn:E.
  - apply String.eqb_eq in E. exfalso. apply H. now left.
  - simpl. f_equal. apply IH. intros Hin. apply H. now right.
Qed.

(** X13: creating a session with a fresh id and deleting it at once gives
    the stored sessions back as they were; the active session is then the
    first of them, not the one that was active before the creation. *)
Theorem create_then_delete_restores_sessions :
  forall now st c l,
    chats st = c :: l ->
    ~ In (JS.toString now) (ids st) ->
    deleteChat (JS.toString now) (createNewChat now st)
    = Returned {| chats := chats st; currentChatId := id c |}.
Proof.
  intros now st c l Hc Hfresh. unfold deleteChat, createNewChat.
  cbn [chats currentChatId id].
  replace (List.length (_ :: chats st) =? 1)%nat with false
    by (rewrite Hc; reflexivity).
  rewrite String.eqb_refl. cbn [filter id]. rewrite String.eqb_refl.
  cbn [negb]. rewrite (filter_fresh _ (chats st) Hfresh), Hc. reflexivity.
Qed.

Lemma create_then_delete_witness :
  deleteChat (JS.toString 1700000000000) (createNewChat 1700000000000 (initialStore 0))
  = Returned {| chats := chats (initialStore 0); currentChatId := "1" |}.
Proof.
  apply (create_then_delete_restores_sessions 1700000000000 (initialStore 0)
           (initialChat 0) [] eq_refl).
  vm_compute. intros [H | []]. discriminate H.
Defined.

Lemma filter_length_NoDup (i : string) (l : list Chat) :
  NoDup (map id l) -> In i (map id l) ->
  List.length (filter (fun c => negb (id c =? i)) l) = (List.length l - 1)%nat.
Proof.
  induction l as [|c l IH]; simpl; [intros _ []|]. intros Hnd Hin.
  inversion Hnd as [|x xs Hnotin Hnd']; subst.
  destruct (id c =? i) eqn:E; simpl.
  - apply String.eqb_eq in E. subst i. rewrite filter_fresh by exact Hnotin. lia.
  - destruct Hin as [Hin | Hin]; [apply String.eqb_neq in E; contradiction|].
    rewrite IH by assumption. destruct l; [destruct Hin | simpl; lia].
Qed.

(** X14: in a store with distinct ids, a stored active id and at least two
    sessions, deleting a stored id removes exactly that session and keeps
    every other one; if the deleted session was active the first remaining
    session becomes active, otherwise the active session is unchanged. *)
Theorem delete_removes_exactly_one_session :
  forall i st,
    storeInv st -> (2 <= List.length (chats st))%nat -> In i (ids st) ->
    exists st',
      deleteChat i st = Returned st'
      /\ List.length (chats st') = (List.length (chats st) - 1)%nat
      /\ ~ In i (ids st')
      /\ (forall c, In c (chats st) -> id c <> i -> In c (chats st'))
      /\ (forall c, In c (chats st') -> In c (chats st))
      /\ (currentChatId st = i -> hd_error (ids st') = Some (currentChatId st'))
      /\ (currentChatId st <> i -> currentChatId st' = currentChatId st).
Proof.
  intros i st (Hne & Hnd & Hcur) Hlen Hin. unfold deleteChat.
  replace (List.length (chats st) =? 1)%nat with false
    by (symmetry; apply Nat.eqb_neq; lia).
  pose proof (filter_keeps_one i _ Hnd Hlen) as Hkeep.
  pose proof (filter_length_NoDup i _ Hnd Hin) as Hcount.
  assert (Hgone : ~ In i (map id (filter (fun c => negb (id c =? i)) (chats st)))).
  { intros H. apply in_map_iff in H. destruct H as (c & Hc & H).
    apply filter_In in H. destruct H as [_ H]. rewrite Hc, String.eqb_refl in H.
    discriminate H. }
  assert (Hkept : forall c, In c (chats st) -> id c <> i ->
             In c (filter (fun c => negb (id c =? i)) (chats st))).
  { intros c Hc Hid. apply filter_In. split; [exact Hc|].
    apply String.eqb_neq in Hid. now rewrite Hid. }
  assert (Hsub : forall c, In c (filter (fun c => negb (id c =? i)) (chats st)) ->
             In c (chats st)).
  { intros c Hc. now apply filter_In in Hc. }
  destruct (currentChatId st =? i) eqn:E.
  - apply String.eqb_eq in E.
    destruct (filter _ (chats st)) as [|c l] eqn:Ef; [congruence|].
    eexists. split; [reflexivity|]. unfold ids. cbn [chats currentChatId].
    repeat split; try assumption. intros H. contradiction.
  - apply String.eqb_neq in E.
    eexists. split; [reflexivity|]. unfold ids. cbn [chats currentChatId].
    repeat split; try assumption. intros H. contradiction.
Qed.

Lemma delete_removes_exactly_one_witness :
  exists st',
    deleteChat "1" (createNewChat 1700000000000 (initialStore 0)) = Returned st'
    /\ List.length (chats st') = 1%nat.
Proof.
  destruct (delete_removes_exactly_one_session "1"
              (createNewChat 1700000000000 (initialStore 0)))
    as (st' & H & Hl & _).
  - unfold storeInv, ids. cbn. repeat split; [discriminate | | now left].
    repeat constructor; [intros [H | []]; discriminate H | intros []].
  - cbn. lia.
  - cbn. right. now left.
  - exists st'. split; [exact H | exact Hl].
Defined.

(** X15: deleting an id that no stored session has, in a store whose active
    id is stored, changes nothing. *)
Theorem delete_of_unknown_id_is_noop :
  forall i st,
    In (currentChatId st) (ids st) -> ~ In i (ids st) ->
    deleteChat i st = Returned st.
Proof.
  intros i st Hcur Hin. unfold deleteChat.
  destruct (List.length (chats st) =? 1)%nat; [reflexivity|].
  rewrite (filter_fresh i (chats st) Hin).
  destruct (currentChatId st =? i) eqn:E.
  - apply String.eqb_eq in E. subst i. contradiction.
  - now destruct st.
Qed.

Lemma delete_of_unknown_id_witness :
  deleteChat "42" (createNewChat 1700000000000 (initialStore 0))
  = Returned (createNewChat 1700000000000 (initialStore 0)).
Proof.
  apply delete_of_unknown_id_is_noop.
  - cbn. now left.
  - cbn. intros [H | [H | []]]; discriminate H.
Defined.

(** X16: clearing the chat leaves in the active session the one "Chat
    cleared" message and keeps its title, id and creation time; a title is
    neither derived nor reset by it, and every other session is
    unchanged. *)
Theorem clearChat_keeps_titles :
  forall st,
    currentChatId (clearChat st) = currentChatId st
    /\ Forall2 (fun c c' =>
                  title c' = title c /\ id c' = id c
                  /\ createdAt c' = createdAt c
                  /\ (id c = currentChatId st -> messages c' = clearedMessages)
                  /\ (id c <> currentChatId st -> c' = c))
         (chats st) (chats (clearChat st)).
Proof.
  intros st. split; [reflexivity|]. unfold clearChat. cbn [chats].
  apply Forall2_map_self. intros c.
  destruct (id c =? currentChatId st) eqn:E.
  - apply String.eqb_eq in E. cbn [title id createdAt messages].
    repeat split; try contradiction.
    unfold newTitle. cbn [clearedMessages existsb isUser modelMessage role].
    now rewrite andb_false_r.
  - apply String.eqb_neq in E. repeat split; try contradiction.
Qed.

(** ** More on the timer *)

Lemma effect_positive (t : Timer) : (0 < timeLeft t)%Z -> effect t = t.
Proof.
  intros H. unfold effect. destruct (intervalSet t); [reflexivity|].
  destruct (timeLeft t =? 0)%Z eqn:E; [|reflexivity].
  apply Z.eqb_eq in E. lia.
Qed.

Lemma duration_positive (t : Timer) (m : Mode) :
  configured t -> (60 <= duration t m * 60)%Z.
Proof. intros [Hf Hb]. destruct m; simpl; lia. Qed.

Lemma tick_inv (t : Timer) : timerInv t -> timerInv (tick t).
Proof.
  intros [Hc Ht]. unfold tick. unfold intervalSet at 1.
  destruct (isActive t && (0 <? timeLeft t)%Z) eqn:E; [|now split].
  destruct (Z.eq_dec (timeLeft t) 1) as [E1 | E1].
  - rewrite effect_at_zero by (simpl; lia). split; [exact Hc|].
    destruct Hc as [Hf Hb]. unfold flipped, decrement, duration in *. simpl.
    destruct (mode t); simpl; lia.
  - rewrite effect_positive by (simpl; lia). split; [exact Hc|].
    unfold decrement, duration in *. simpl. destruct (mode t); lia.
Qed.

Ltac timer_arith :=
  unfold timerInv, configured, handleReset, selectMode, toggle,
    updateFocus, updateBreak in *;
  unfold duration in *;
  cbn [focusMinutes breakMinutes timeLeft isActive mode] in *;
  try match goal with Ea : isActive _ = _ |- _ => rewrite Ea in * end;
  repeat match goal with
         | |- context [match ?m with focus => _ | break => _ end] => destruct m
         | H : context [match ?m with focus => _ | break => _ end] |- _ => destruct m
         end;
  lia.

Lemma timerStep_inv (ev : TimerEvent) (t : Timer) :
  timerInv t -> timerInv (timerStep ev t).
Proof.
  intros H.
  destruct ev; cbn [timerStep];
    try (destruct (isActive t) eqn:Ea; [exact H|]);
    try (now apply tick_inv);
    rewrite effect_positive; timer_arith.
Qed.

(** X17: whatever is pressed and however many seconds pass, the timer
    started from its initial state keeps both durations at one minute or
    more, and its countdown between one second and the configured duration
    of its mode: it shows neither zero nor a negative time. *)
Theorem timer_countdown_stays_in_range :
  forall evs,
    (1 <= focusMinutes (timerRun evs initialTimer))%Z
    /\ (1 <= breakMinutes (timerRun evs initialTimer))%Z
    /\ (0 < timeLeft (timerRun evs initialTimer)
        <= duration (timerRun evs initialTimer)
             (mode (timerRun evs initialTimer)) * 60)%Z.
Proof.
  assert (H : forall evs t, timerInv t -> timerInv (timerRun evs t)).
  { unfold timerRun. induction evs as [|ev evs IH]; intros t Ht; simpl;
      [exact Ht | apply IH; now apply timerStep_inv]. }
  intros evs.
  destruct (H evs initialTimer) as [[Hf Hb] Ht];
    [unfold timerInv, configured; simpl; lia|].
  repeat split; try assumption; apply Ht.
Qed.

Lemma two_digits (n : nat) :
  (n < 60)%nat ->
  padStart2 (JS.toString (Z.of_nat n))
  = String (digitChar (Z.of_nat n / 10))
      (String (digitChar (Z.of_nat n mod 10)) "").
Proof.
  intros H. do 60 (destruct n as [|n]; [vm_compute; reflexivity|]). lia.
Qed.

(** X18: for a time of [s] seconds that is not negative, the display is the
    number of whole minutes, a colon, and always exactly two digits, which
    are the tens and units of the remaining seconds. *)
Theorem formatTime_minutes_and_two_digits :
  forall s,
    (0 <= s)%Z ->
    exists tens units,
      (0 <= tens < 6)%Z /\ (0 <= units < 10)%Z
      /\ (s = 60 * (s / 60) + 10 * tens + units)%Z
      /\ formatTime s
         = JS.toString (s / 60) ++ ":"
           ++ String (digitChar tens) (String (digitChar units) "").
Proof.
  intros s Hs. exists ((s mod 60) / 10)%Z, ((s mod 60) mod 10)%Z.
  pose proof (Z.mod_pos_bound s 60 ltac:(lia)) as Hr.
  repeat split; try lia.
  - apply Z.div_pos; lia.
  - apply Z.div_lt_upper_bound; lia.
  - apply Z.mod_pos_bound; lia.
  - apply Z.mod_pos_bound; lia.
  - rewrite (Z.div_mod s 60) at 1 by lia.
    rewrite (Z.div_mod (s mod 60) 10) at 1 by lia. lia.
  - unfold formatTime. rewrite Z.rem_mod_nonneg by lia.
    rewrite <- (Z2Nat.id (s mod 60)) by lia.
    rewrite two_digits by lia. reflexivity.
Qed.

Lemma formatTime_witness :
  exists tens units,
    (0 <= tens < 6)%Z /\ (0 <= units < 10)%Z
    /\ (1505 = 60 * (1505 / 60) + 10 * tens + units)%Z
    /\ formatTime 1505
       = JS.toString (1505 / 60) ++ ":"
         ++ String (digitChar tens) (String (digitChar units) "").
Proof. apply formatTime_minutes_and_two_digits. lia. Defined.

(** ** Breathing exercise *)

Lemma breathing_states (b : Breathing) :
  breathingInv b ->
  In b [ {| phase := Inhale; count := 1 |}; {| phase := Inhale; count := 2 |};
         {| phase := Inhale; count := 3 |}; {| phase := Inhale; count := 4 |};
         {| phase := Hold; count := 1 |}; {| phase := Hold; count := 2 |};
         {| phase := Hold; count := 3 |}; {| phase := Hold; count := 4 |};
         {| phase := Hold; count := 5 |}; {| phase := Hold; count := 6 |};
         {| phase := Hold; count := 7 |};
         {| phase := Exhale; count := 1 |}; {| phase := Exhale; count := 2 |};
         {| phase := Exhale; count := 3 |}; {| phase := Exhale; count := 4 |};
         {| phase := Exhale; count := 5 |}; {| phase := Exhale; count := 6 |};
         {| phase := Exhale; count := 7 |}; {| phase := Exhale; count := 8 |} ].
Proof.
  destruct b as [p c]. unfold breathingInv. cbn [phase count]. intros H.
  assert (Hc : (c = 1 \/ c = 2 \/ c = 3 \/ c = 4 \/ c = 5 \/ c = 6 \/ c = 7
                \/ c = 8)%Z)
    by (destruct p; simpl in H; lia).
  destruct p; simpl in H;
    repeat (destruct Hc as [-> | Hc]; [simpl; try lia; tauto|]);
    subst; simpl; try lia; tauto.
Qed.

(** X19: from every state in which the counter is within its phase (the
    initial state is one), the exercise stays in such states, keeps the
    phase for as many seconds as the counter shows and then moves to the
    next phase with its full count (4 for Inhale, 7 for Hold, 8 for
    Exhale), and is back in the same state after 19 seconds. *)
Theorem breathing_cycle :
  forall b,
    breathingInv b ->
    breathingInv (breathe b)
    /\ (forall k, (k < Z.to_nat (count b))%nat -> phase (breaths k b) = phase b)
    /\ breaths (Z.to_nat (count b)) b
       = {| phase := nextPhase (phase b);
            count := phaseSeconds (nextPhase (phase b)) |}
    /\ breaths 19 b = b.
Proof.
  intros b H. apply breathing_states in H. simpl in H.
  repeat (destruct H as [<- | H];
          [ split; [unfold breathingInv; simpl; lia|];
            split; [| split; vm_compute; reflexivity];
            intros k Hk; cbn [count] in Hk;
            do 8 (destruct k as [|k];
                  [first [reflexivity | exfalso; vm_compute in Hk; lia]|]);
            exfalso; vm_compute in Hk; lia |]).
  destruct H.
Qed.

Lemma breathing_cycle_witness :
  breaths 4 initialBreathing = {| phase := Hold; count := 7 |}
  /\ breaths 19 initialBreathing = initialBreathing.
Proof.
  destruct (breathing_cycle initialBreathing) as (_ & _ & H3 & H4).
  - unfold breathingInv. simpl. lia.
  - split; [exact H3 | exact H4].
Defined.

(** ** Attachments *)

Lemma split_without_separator (sep : ascii) (s : string) :
  allChars (fun c => negb (Ascii.eqb c sep)) s = true -> JS.split sep s = [s].
Proof.
  induction s as [|c s IH]; simpl; [reflexivity|]. intros H.
  apply andb_true_iff in H. destruct H as [Hc Hs].
  apply negb_true_iff in Hc. rewrite Hc, (IH Hs). reflexivity.
Qed.

Lemma split_at_first_separator (sep : ascii) (a b : string) :
  allChars (fun c => negb (Ascii.eqb c sep)) a = true ->
  JS.split sep (a ++ String sep b) = a :: JS.split sep b.
Proof.
  induction a as [|c a IH]; simpl; intros H.
  - now rewrite Ascii.eqb_refl.
  - apply andb_true_iff in H. destruct H as [Hc Ha].
    apply negb_true_iff in Hc. rewrite Hc, (IH Ha). reflexivity.
Qed.

(** X20: what a file input keeps of a data URL is what the preview puts
    back: for an attachment whose media type and data hold no comma, taking
    the part after the first comma of the preview's URL gives the data; and
    a text without any comma gives no data at all. *)
Theorem attachment_data_round_trip :
  (forall a,
      allChars notComma (mimeType a) = true ->
      allChars notComma (data a) = true ->
      dataOfDataUrl (previewSrc a) = Some (data a))
  /\ (forall s, allChars notComma s = true -> dataOfDataUrl s = None).
Proof.
  split.
  - intros a Hm Hd. unfold dataOfDataUrl, previewSrc.
    replace ("data:" ++ mimeType a ++ ";base64," ++ data a)
      with (("data:" ++ mimeType a ++ ";base64") ++ String "," (data a))
      by (rewrite !append_assoc; reflexivity).
    rewrite split_at_first_separator.
    + rewrite (split_without_separator "," (data a) Hd). reflexivity.
    + change (allChars notComma ("data:" ++ mimeType a ++ ";base64") = true).
      rewrite !allChars_app, Hm. reflexivity.
  - intros s Hs. unfold dataOfDataUrl.
    now rewrite (split_without_separator "," s Hs).
Qed.

Lemma attachment_data_witness :
  dataOfDataUrl (previewSrc {| data := "iVBORw0KGgo="; mimeType := "image/png";
                              name := "notes.png" |})
  = Some "iVBORw0KGgo="
  /\ dataOfDataUrl "notes.png" = None.
Proof.
  split.
  - apply (proj1 attachment_data_round_trip
             {| data := "iVBORw0KGgo="; mimeType := "image/png";
                name := "notes.png" |}); reflexivity.
  - apply (proj2 attachment_data_round_trip). reflexivity.
Defined.

(** ** Invariants of the whole interface *)

Lemma update_seeded (cid : string) (ms : list Message) (l : list Chat) :
  ms <> [] ->
  Forall (fun c => messages c <> []) l ->
  Forall (fun c => messages c <> []) (updateCurrentChatMessages cid ms l).
Proof.
  intros Hms H. unfold updateCurrentChatMessages. apply Forall_map.
  eapply Forall_impl; [|exact H]. intros c Hc.
  destruct (id c =? cid); [exact Hms | exact Hc].
Qed.

Lemma snoc_not_nil {A : Type} (l : list A) (x : A) : (l ++ [x])%list <> [].
Proof. destruct l; discriminate. Qed.

Lemma handleSendMessage_seeded (arg : option string) (st : AppState) :
  allSeeded st -> allSeeded (handleSendMessage arg st).
Proof.
  intros H. unfold handleSendMessage.
  destruct (currentChat (store st)) as [cur|]; [|exact H].
  destruct (_ && _); [exact H|].
  destruct (detect _); unfold allSeeded; cbn;
    repeat apply update_seeded; try apply snoc_not_nil; exact H.
Qed.

Lemma generateStudyPlan_seeded (task : string) (att : option Attachment)
  (st : AppState) :
  allSeeded st -> allSeeded (generateStudyPlan task att st).
Proof.
  intros H. unfold generateStudyPlan.
  destruct (currentChat (store st)) as [cur|]; [|exact H].
  unfold allSeeded; cbn. apply update_seeded; [apply snoc_not_nil | exact H].
Qed.

Lemma appStep_seeded (ev : Event) (st : AppState) :
  allSeeded st -> allSeeded (appStep ev st).
Proof.
  intros H. destruct ev; cbn [appStep]; try exact H.
  - now apply handleSendMessage_seeded.
  - destruct (sendDisabled st); [exact H | now apply handleSendMessage_seeded].
  - destruct (nth_error (suggestions st) n);
      [now apply handleSendMessage_seeded | exact H].
  - destruct (activeTool st); try exact H.
    destruct (generateDisabled task st);
      [exact H | now apply generateStudyPlan_seeded].
  - destruct (nth_error (pending st) n) as [req|]; [|exact H].
    unfold allSeeded. rewrite resolve_store. cbn [chats store setPending].
    apply update_seeded; [apply snoc_not_nil | exact H].
Qed.

Lemma uiStep_seeded (ev : UiEvent) (st : AppState) :
  allSeeded st -> allSeeded (stateOf (uiStep ev st)).
Proof.
  intros H. destruct ev; cbn [uiStep].
  - unfold allSeeded. cbn. constructor; [discriminate | exact H].
  - assert (Hf : Forall (fun c => messages c <> [])
                   (filter (fun c => negb (id c =? i)) (chats (store st)))).
    { apply Forall_forall. intros c Hc. apply filter_In in Hc.
      unfold allSeeded in H. rewrite Forall_forall in H. now apply H. }
    unfold deleteChat.
    destruct (List.length (chats (store st)) =? 1)%nat; [exact H|].
    destruct (currentChatId (store st) =? i);
      [destruct (filter _ (chats (store st))) eqn:E|]; exact Hf.
  - cbn [storeStep].
    destruct (nth_error (chats (store st)) n); exact H.
  - unfold allSeeded. cbn. apply update_seeded; [discriminate | exact H].
  - now apply appStep_seeded.
Qed.

(** X21: every session always holds at least one message: from the first-run
    state, whatever sessions are created, deleted, selected or cleared, and
    whatever is sent and however requests settle, no stored session has an
    empty message list. *)
Theorem sessions_are_never_empty :
  forall evs now,
    Forall (fun c => messages c <> [])
      (chats (store (stateOf (uiRun evs (initialApp now))))).
Proof.
  assert (H : forall evs st, allSeeded st -> allSeeded (stateOf (uiRun evs st))).
  { induction evs as [|ev evs IH]; intros st Hst; cbn [uiRun]; [exact Hst|].
    pose proof (uiStep_seeded ev st Hst) as Hstep.
    destruct (uiStep ev st) as [st' | e st']; [now apply IH | exact Hstep]. }
  intros evs now. apply (H evs (initialApp now)).
  unfold allSeeded. cbn. constructor; [discriminate | constructor].
Qed.

Lemma handleSendMessage_idle (arg : option string) (st : AppState) :
  idleWhenNothingPending st -> idleWhenNothingPending (handleSendMessage arg st).
Proof.
  intros H. unfold handleSendMessage.
  destruct (currentChat (store st)) as [cur|]; [|exact H].
  destruct (_ && _); [exact H|].
  destruct (detect _); unfold idleWhenNothingPending; cbn; [reflexivity|].
  intros E. destruct (pending st); discriminate E.
Qed.

Lemma appStep_idle (ev : Event) (st : AppState) :
  idleWhenNothingPending st -> idleWhenNothingPending (appStep ev st).
Proof.
  intros H. destruct ev; cbn [appStep]; try exact H.
  - now apply handleSendMessage_idle.
  - destruct (sendDisabled st); [exact H | now apply handleSendMessage_idle].
  - destruct (nth_error (suggestions st) n);
      [now apply handleSendMessage_idle | exact H].
  - destruct (activeTool st); try exact H.
    destruct (generateDisabled task st); [exact H|].
    unfold generateStudyPlan.
    destruct (currentChat (store st)) as [cur|]; [|exact H].
    unfold idleWhenNothingPending; cbn. intros E.
    destruct (pending st); discriminate E.
  - destruct (nth_error (pending st) n) as [req|]; [|exact H].
    intros _. apply resolve_isLoading.
Qed.

(** X22: the controller is never left loading with nothing outstanding:
    from the first-run state, after any events, if no request is
    outstanding then [isLoading] is false, so the submit button is not
    held disabled by it. *)
Theorem loading_needs_an_outstanding_request :
  forall evs now,
    pending (stateOf (uiRun evs (initialApp now))) = [] ->
    isLoading (stateOf (uiRun evs (initialApp now))) = false.
Proof.
  assert (Hstep : forall ev st, idleWhenNothingPending st ->
                                idleWhenNothingPending (stateOf (uiStep ev st))).
  { intros ev st H. destruct ev; cbn [uiStep]; try exact H.
    - destruct (deleteChat i (store st)); exact H.
    - destruct (storeStep (OpSelect n) (store st)); exact H.
    - now apply appStep_idle. }
  assert (H : forall evs st, idleWhenNothingPending st ->
                             idleWhenNothingPending (stateOf (uiRun evs st))).
  { induction evs as [|ev evs IH]; intros st Hst; cbn [uiRun]; [exact Hst|].
    pose proof (Hstep ev st Hst) as Hs.
    destruct (uiStep ev st) as [st' | e st']; [now apply IH | exact Hs]. }
  intros evs now. apply (H evs (initialApp now)). intros _. reflexivity.
Qed.

Lemma loading_needs_an_outstanding_request_witness :
  isLoading
    (stateOf (uiRun [UiController (EvType "I feel stuck"); UiController EvEnterKey;
                     UiNewSession 1700000000000;
                     UiController (EvSettle 0 Rejected)] (initialApp 0)))
  = false.
Proof.
  apply (loading_needs_an_outstanding_request
           [UiController (EvType "I feel stuck"); UiController EvEnterKey;
            UiNewSession 1700000000000; UiController (EvSettle 0 Rejected)] 0).
  vm_compute. reflexivity.
Defined.

(** ** Study-plan turns *)

Lemma generateStudyPlan_sent (task : string) (att : option Attachment)
  (st : AppState) (cur : Chat) :
  currentChat (store st) = Some cur ->
  generateStudyPlan task att st
  = {| store :=
         {| chats := updateCurrentChatMessages (currentChatId (store st))
                       (messages cur ++ [planMessage task att]) (chats (store st));
            currentChatId := currentChatId (store st) |};
       input := input st; isLoading := true; activeTool := noTool;
       attachedFile := attachedFile st; suggestions := suggestions st;
       pending :=
         (pending st ++
          [{| kind := StudyPlanTurn; reqChatId := currentChatId (store st);
              reqMessages := (messages cur ++ [planMessage task att])%list;
              contents :=
                [{| contentRole := user; contentText := studyPlanPrompt task;
                    inlineData := match att with
                                  | Some a => Some (data a, mimeType a)
                                  | None => None
                                  end |}] |}])%list |}.
Proof. intros Hcur. unfold generateStudyPlan. rewrite Hcur. reflexivity. Qed.

Lemma resolve_studyPlan_attachedFile (req : Request) (r : Response) (st : AppState) :
  kind req = StudyPlanTurn -> attachedFile (resolve req r st) = None.
Proof.
  intros Hk. unfold resolve. rewrite Hk.
  destruct (replyOf StudyPlanTurn r) as [msg [chips|]]; reflexivity.
Qed.

(** X23: a study-plan turn, in a state whose active id is stored: the
    request appends the user message "Help me plan for: " followed by the
    task, closes the tool and issues one request whose contents are the
    prompt alone, not the messages of the session; the chips and the staged
    file stay until the request settles.  When it settles the reply follows
    the user message, its text is never empty, the staged file is dropped
    and the controller is not loading. *)
Theorem study_plan_turn :
  forall task att st cur r,
    currentChat (store st) = Some cur ->
    In (currentChatId (store st)) (ids (store st)) ->
    (shownMessages (generateStudyPlan task att st)
     = (messages cur ++ [planMessage task att])%list
     /\ (exists req,
           pending (generateStudyPlan task att st) = (pending st ++ [req])%list
           /\ kind req = StudyPlanTurn
           /\ map contentText (contents req) = [studyPlanPrompt task])
     /\ activeTool (generateStudyPlan task att st) = noTool
     /\ suggestions (generateStudyPlan task att st) = suggestions st
     /\ attachedFile (generateStudyPlan task att st) = attachedFile st)
    /\ (shownMessages
          (appStep (EvSettle (List.length (pending st)) r)
             (generateStudyPlan task att st))
        = (messages cur
           ++ [planMessage task att; fst (replyOf StudyPlanTurn r)])%list
        /\ text (fst (replyOf StudyPlanTurn r)) <> ""
        /\ attachedFile
             (appStep (EvSettle (List.length (pending st)) r)
                (generateStudyPlan task att st)) = None
        /\ isLoading
             (appStep (EvSettle (List.length (pending st)) r)
                (generateStudyPlan task att st)) = false
        /\ pending
             (appStep (EvSettle (List.length (pending st)) r)
                (generateStudyPlan task att st)) = pending st).
Proof.
  intros task att st cur r Hcur Hin.
  rewrite (generateStudyPlan_sent task att st cur Hcur). split.
  - split; [|split; [|repeat split]].
    + apply (shown_after_update _ _ (chats (store st))); [reflexivity | exact Hin].
    + eexists. split; [reflexivity|]. split; reflexivity.
  - unfold appStep. cbn [pending]. rewrite nth_error_last, removeNth_last.
    rewrite resolve_isLoading, resolve_pending,
      resolve_studyPlan_attachedFile by reflexivity.
    split; [|split; [|repeat split]].
    + apply (shown_after_update _ _
               (updateCurrentChatMessages (currentChatId (store st))
                  (messages cur ++ [planMessage task att]) (chats (store st)))).
      * rewrite resolve_store. cbn. now rewrite <- app_assoc.
      * rewrite resolve_store. cbn [currentChatId store setPending].
        rewrite update_ids. exact Hin.
    + destruct r as [|t]; simpl; [discriminate|].
      apply orElse_nonempty. discriminate.
Qed.

Lemma study_plan_turn_witness :
  map text
    (shownMessages
       (appStep (EvSettle 0 Rejected)
          (generateStudyPlan "Math Criterion A Summative" None (initialApp 0))))
  = [welcomeFirstRun; "Help me plan for: Math Criterion A Summative"; planSnag].
Proof.
  destruct (study_plan_turn "Math Criterion A Summative" None (initialApp 0)
              (initialChat 0) Rejected eq_refl (or_introl eq_refl))
    as (_ & H & _).
  change (List.length (pending (initialApp 0))) with 0%nat in H.
  rewrite H. reflexivity.
Defined.
